(** * Note Organizer: the state machine of [notes_frontend/src/App.js]

    A shallow embedding of the React component [App]: its state hooks become
    the record [AppState], its event handlers become functions
    [AppState -> M AppState] in a small monad over the browser [World]
    (system clock, viewport width, confirm and alert dialogs), and the
    render-time hooks ([useMemo], [useEffect]) become [filteredNotes],
    [useMemo_notes] and [seedEffect].

    Conventions of the model:
    - a JavaScript string is a [string] whose characters are the code units
      0..255 (Latin-1); [trim], [toLowerCase] and [includes] follow
      ECMAScript on that range;
    - a date is its time value, an integer count of milliseconds ([Z]);
      [new Date().toISOString()] followed by [new Date(iso)] gives the time
      value back, so the ISO text is not represented;
    - [Array.prototype.sort] is the stable sort of ECMAScript 2019. *)

From Stdlib Require Import ZArith List Bool Lia Ascii String.
From Stdlib Require Import Sorting.Sorted Sorting.Permutation.
From Stdlib Require Import Numbers.DecimalString Numbers.DecimalZ.
Import ListNotations.

Open Scope string_scope.
Open Scope Z_scope.

(** ** JavaScript strings *)

Module JsString.

(** White space of [String.prototype.trim] among the code units 0..255:
    TAB, LF, VT, FF, CR, SP and NBSP. *)
Definition isWhiteSpace (c : ascii) : bool :=
  let n := N_of_ascii c in
  ((9 <=? n) && (n <=? 13) || (n =? 32) || (n =? 160))%N.

Fixpoint trimStart (s : string) : string :=
  match s with
  | EmptyString => EmptyString
  | String c s' => if isWhiteSpace c then trimStart s' else s
  end.

Fixpoint trimEnd (s : string) : string :=
  match s with
  | EmptyString => EmptyString
  | String c s' =>
      match trimEnd s' with
      | EmptyString => if isWhiteSpace c then EmptyString else String c EmptyString
      | r => String c r
      end
  end.

Definition trim (s : string) : string := trimEnd (trimStart s).

(** JavaScript truthiness of a string: the empty string is falsy. *)
Definition truthy (s : string) : bool :=
  match s with EmptyString => false | String _ _ => true end.

(** [toLowerCase] on one code unit: A-Z and the Latin-1 capitals
    (0xC0-0xDE without the multiplication sign 0xD7) move up by 32. *)
Definition lowerChar (c : ascii) : ascii :=
  let n := N_of_ascii c in
  if ((65 <=? n) && (n <=? 90) || (192 <=? n) && (n <=? 222) && negb (n =? 215))%N
  then ascii_of_N (n + 32)
  else c.

Fixpoint toLowerCase (s : string) : string :=
  match s with
  | EmptyString => EmptyString
  | String c s' => String (lowerChar c) (toLowerCase s')
  end.

Fixpoint startsWith (s q : string) {struct q} : bool :=
  match q with
  | EmptyString => true
  | String d q' =>
      match s with
      | EmptyString => false
      | String c s' => Ascii.eqb c d && startsWith s' q'
      end
  end.

(** [s.includes(q)]: [q] occurs in [s] at some offset. *)
Fixpoint includes (s q : string) : bool :=
  startsWith s q ||
  match s with
  | EmptyString => false
  | String _ s' => includes s' q
  end.

(** [String(n)] for an integer [n] (below 1e21 in magnitude, which every
    time value is): its decimal numeral. *)
Definition ofNumber (n : Z) : string := NilEmpty.string_of_int (Z.to_int n).

(** Characters of a string, for statements about all of them. *)
Fixpoint chars (s : string) : list ascii :=
  match s with
  | EmptyString => []
  | String c s' => c :: chars s'
  end.

End JsString.
Import JsString.

(** ** Notes *)

Record Note := mkNote {
  id : string;
  title : string;
  content : string;
  createdAt : Z;
  updatedAt : Z
}.

(** The object spread [{...n, title, content, updatedAt}]. *)
Definition spread_update (n : Note) (t c : string) (u : Z) : Note :=
  {| id := id n; title := t; content := c; createdAt := createdAt n; updatedAt := u |}.

(** [sortByRecent(a, b) = new Date(b.updatedAt) - new Date(a.updatedAt)]. *)
Definition sortByRecent (a b : Note) : Z := updatedAt b - updatedAt a.

(** ** Array.prototype.sort

    A comparator result above zero puts the second argument first; zero and
    below keep the first argument first, so equal elements keep their order. *)
Section ArraySort.
Context {A : Type} (cmp : A -> A -> Z).

Fixpoint sort_insert (x : A) (l : list A) : list A :=
  match l with
  | [] => [x]
  | y :: l' => if 0 <? cmp x y then y :: sort_insert x l' else x :: l
  end.

Fixpoint array_sort (l : list A) : list A :=
  match l with
  | [] => []
  | x :: l' => sort_insert x (array_sort l')
  end.
End ArraySort.

(** ** The derived list of the sidebar *)

(** The callback of [notes.filter] in [filteredNotes]. *)
Definition matchesSearch (searchTerm : string) (note : Note) : bool :=
  includes (toLowerCase (title note)) (toLowerCase searchTerm) ||
  includes (toLowerCase (content note)) (toLowerCase searchTerm).

(** The value of the [useMemo] for [filteredNotes]. *)
Definition filteredNotes (notes : list Note) (searchTerm : string) : list Note :=
  if negb (truthy searchTerm) then array_sort sortByRecent notes
  else array_sort sortByRecent (filter (matchesSearch searchTerm) notes).

(** ** The browser

    What the handlers read from and write to outside React: the viewport
    width, the system clock (one reading per [new Date()] or [Date.now()]),
    the user's answers to [window.confirm], and the dialogs shown. *)

Record World := mkWorld {
  innerWidth : Z;
  clock : nat -> Z;        (* the i-th reading of the system clock, in ms *)
  reads : nat;             (* clock readings taken so far *)
  answers : nat -> bool;   (* the answer to the i-th confirm dialog *)
  confirms : list string;  (* confirm prompts shown, latest first *)
  alerts : list string     (* alerts shown, latest first *)
}.

Definition M (A : Type) : Type := World -> A * World.

Definition ret {A} (a : A) : M A := fun w => (a, w).

Definition bind {A B} (m : M A) (k : A -> M B) : M B :=
  fun w => let (a, w') := m w in k a w'.

Notation "x <- m ;; k" := (bind m (fun x => k))
  (at level 61, m at next level, right associativity).
Notation "m ;;; k" := (bind m (fun _ => k))
  (at level 61, right associativity).

Definition Date_now : M Z :=
  fun w => (clock w (reads w),
            mkWorld (innerWidth w) (clock w) (S (reads w)) (answers w) (confirms w) (alerts w)).

Definition window_innerWidth : M Z := fun w => (innerWidth w, w).

Definition window_confirm (msg : string) : M bool :=
  fun w => (answers w (List.length (confirms w)),
            mkWorld (innerWidth w) (clock w) (reads w) (answers w) (msg :: confirms w) (alerts w)).

Definition window_alert (msg : string) : M unit :=
  fun w => (tt,
            mkWorld (innerWidth w) (clock w) (reads w) (answers w) (confirms w) (msg :: alerts w)).

(** The browser changes the viewport width before it fires [resize]. *)
Definition window_resize (width : Z) : M unit :=
  fun w => (tt,
            mkWorld width (clock w) (reads w) (answers w) (confirms w) (alerts w)).

(** [xs.map(f)] for a callback with effects, left to right. *)
Fixpoint array_map {A B} (f : A -> M B) (l : list A) : M (list B) :=
  match l with
  | [] => ret []
  | x :: l' => y <- f x ;; ys <- array_map f l' ;; ret (y :: ys)
  end.

(** ** The state of [App] *)

Inductive Mode := view | create | edit.

Record AppState := mkApp {
  notes : list Note;
  selectedNoteId : option string;
  sidebarOpen : bool;
  searchTerm : string;
  mode : Mode;
  editTitle : string;
  editContent : string
}.

Definition setNotes (ns : list Note) (s : AppState) : AppState :=
  mkApp ns (selectedNoteId s) (sidebarOpen s) (searchTerm s) (mode s) (editTitle s) (editContent s).
Definition setSelectedNoteId (i : option string) (s : AppState) : AppState :=
  mkApp (notes s) i (sidebarOpen s) (searchTerm s) (mode s) (editTitle s) (editContent s).
Definition setSidebarOpen (b : bool) (s : AppState) : AppState :=
  mkApp (notes s) (selectedNoteId s) b (searchTerm s) (mode s) (editTitle s) (editContent s).
Definition setSearchTerm (q : string) (s : AppState) : AppState :=
  mkApp (notes s) (selectedNoteId s) (sidebarOpen s) q (mode s) (editTitle s) (editContent s).
Definition setMode (m : Mode) (s : AppState) : AppState :=
  mkApp (notes s) (selectedNoteId s) (sidebarOpen s) (searchTerm s) m (editTitle s) (editContent s).
Definition setEditTitle (t : string) (s : AppState) : AppState :=
  mkApp (notes s) (selectedNoteId s) (sidebarOpen s) (searchTerm s) (mode s) t (editContent s).
Definition setEditContent (c : string) (s : AppState) : AppState :=
  mkApp (notes s) (selectedNoteId s) (sidebarOpen s) (searchTerm s) (mode s) (editTitle s) c.

(** The [useState] initial values; [width] is [window.innerWidth]. *)
Definition initialState (width : Z) : AppState :=
  mkApp [] None (768 <? width) "" view "" "".

(** [notes.find(n => n.id === selectedNoteId)]; [null] equals no id. *)
Definition selectedNote (s : AppState) : option Note :=
  match selectedNoteId s with
  | None => None
  | Some i => find (fun n => String.eqb (id n) i) (notes s)
  end.

(** ** Event handlers *)

Definition handleResize (s : AppState) : M AppState :=
  w <- window_innerWidth ;; ret (setSidebarOpen (768 <? w) s).

Definition handleSelectNote (note : Note) (s : AppState) : M AppState :=
  ret (setEditContent (content note)
        (setEditTitle (title note)
          (setMode view
            (setSelectedNoteId (Some (id note)) s)))).

Definition handleCreateNoteClick (s : AppState) : M AppState :=
  let s := setSelectedNoteId None (setEditContent "" (setEditTitle "" (setMode create s))) in
  w <- window_innerWidth ;;
  if w <=? 768 then ret (setSidebarOpen false s) else ret s.

Definition handleEditNoteClick (s : AppState) : M AppState :=
  match selectedNote s with
  | None => ret s
  | Some sel =>
      ret (setEditContent (content sel) (setEditTitle (title sel) (setMode edit s)))
  end.

Definition handleDeleteNoteClick (noteId : string) (s : AppState) : M AppState :=
  ok <- window_confirm "Are you sure you want to delete this note?" ;;
  if ok then
    ret (setMode view
          (setSelectedNoteId None
            (setNotes (filter (fun n => negb (String.eqb (id n) noteId)) (notes s)) s)))
  else ret s.

(** The callback of [notes.map] in the edit branch of [handleSaveNote]. *)
Definition saveCallback (selId editTitle editContent : string) (n : Note) : M Note :=
  if String.eqb (id n) selId
  then now <- Date_now ;; ret (spread_update n editTitle editContent now)
  else ret n.

Definition handleSaveNote (s : AppState) : M AppState :=
  if negb (truthy (trim (editTitle s))) then
    window_alert "Note title cannot be empty" ;;; ret s
  else
    s' <- match mode s, selectedNote s with
          | edit, Some sel =>
              ns <- array_map (saveCallback (id sel) (editTitle s) (editContent s))
                              (notes s) ;;
              ret (setSelectedNoteId (Some (id sel)) (setNotes ns s))
          | create, _ =>
              t_id <- Date_now ;;
              t_created <- Date_now ;;
              t_updated <- Date_now ;;
              let newNote :=
                mkNote ("note_" ++ ofNumber t_id) (editTitle s) (editContent s)
                       t_created t_updated in
              ret (setSelectedNoteId (Some (id newNote)) (setNotes (newNote :: notes s) s))
          | _, _ => ret s
          end ;;
    ret (setMode view s').

Definition handleSidebarToggle (s : AppState) : M AppState :=
  ret (setSidebarOpen (negb (sidebarOpen s)) s).

Definition handleSearchChange (value : string) (s : AppState) : M AppState :=
  ret (setSearchTerm value s).

(** [onCancel={() => setMode("view")}]. *)
Definition onCancel (s : AppState) : M AppState := ret (setMode view s).

(** ** Rendering *)

(** Without a search term the [useMemo] sorts the state array itself
    ([notes.sort] works in place); with one it sorts the copy made by
    [filter]. *)
Definition useMemo_notes (s : AppState) : AppState :=
  if negb (truthy (searchTerm s))
  then setNotes (array_sort sortByRecent (notes s)) s
  else s.

(** The two sample notes of the seeding effect, stamped with the four clock
    readings of its four [new Date()]. *)
Definition seedNotes (c1 u1 c2 u2 : Z) : list Note :=
  [ mkNote "note1" "Welcome to Note Organizer"
      "This is your first note. Start organizing your thoughts!" c1 u1;
    mkNote "note2" "Features"
      (String.concat (String (ascii_of_nat 10) "")
         ["- Create, edit, delete notes"; "- Search instantly";
          "- Beautiful, responsive UI"]) c2 u2 ].

(** The seeding effect, run after a render whenever [notes.length] changed. *)
Definition seedEffect (s : AppState) : M AppState :=
  if (List.length (notes s) =? 0)%nat then
    c1 <- Date_now ;; u1 <- Date_now ;; c2 <- Date_now ;; u2 <- Date_now ;;
    ret (setNotes (seedNotes c1 u1 c2 u2) s)
  else ret s.

(** Render, run the effect, render again. *)
Definition render_cycle (s : AppState) : M AppState :=
  s' <- seedEffect (useMemo_notes s) ;; ret (useMemo_notes s').

Definition mount : M AppState :=
  w <- window_innerWidth ;; render_cycle (initialState w).

(** What [MainContent] shows. *)
Inductive MainPanel :=
| NoteForm (m : Mode) (titleValue contentValue : string)
| EmptyState
| NoteDisplay (note : Note).

Definition MainContent (s : AppState) : MainPanel :=
  match mode s, selectedNote s with
  | create, _ => NoteForm create (editTitle s) (editContent s)
  | edit, Some _ => NoteForm edit (editTitle s) (editContent s)
  | _, None => EmptyState
  | _, Some n => NoteDisplay n
  end.

(** What [App] returns: the props of [Sidebar], the main panel and whether
    the floating button is there. *)
Record Screen := mkScreen {
  sidebar_open : bool;
  sidebar_notes : list Note;
  sidebar_selected : option string;
  sidebar_search : string;
  main_panel : MainPanel;
  sidebar_fab : bool
}.

Definition render (s : AppState) : Screen :=
  mkScreen (sidebarOpen s) (filteredNotes (notes s) (searchTerm s))
           (selectedNoteId s) (searchTerm s) (MainContent s) (negb (sidebarOpen s)).

(** ** Events *)

Inductive Event :=
| SelectNote (note : Note)
| CreateNoteClick
| EditNoteClick
| DeleteNoteClick (noteId : string)
| SaveNote
| CancelClick
| SidebarToggle
| SearchChange (value : string)
| TitleChange (value : string)
| ContentChange (value : string)
| Resize (width : Z).

Definition handle (ev : Event) (s : AppState) : M AppState :=
  match ev with
  | SelectNote note => handleSelectNote note s
  | CreateNoteClick => handleCreateNoteClick s
  | EditNoteClick => handleEditNoteClick s
  | DeleteNoteClick noteId => handleDeleteNoteClick noteId s
  | SaveNote => handleSaveNote s
  | CancelClick => onCancel s
  | SidebarToggle => handleSidebarToggle s
  | SearchChange value => handleSearchChange value s
  | TitleChange value => ret (setEditTitle value s)
  | ContentChange value => ret (setEditContent value s)
  | Resize width => window_resize width ;;; handleResize s
  end.

(** One event: the handler, then the renders it causes. *)
Definition step (ev : Event) (s : AppState) : M AppState :=
  s' <- handle ev s ;; render_cycle s'.

Fixpoint run (evs : list Event) (s : AppState) : M AppState :=
  match evs with
  | [] => ret s
  | ev :: evs' => s' <- step ev s ;; run evs' s'
  end.

(** The controls the rendered page offers: a sidebar item per visible note,
    Edit and Delete on the displayed note, Save, Cancel and the two inputs on
    the form; the rest is always there. *)
Definition offered (s : AppState) (ev : Event) : Prop :=
  match ev with
  | SelectNote note => In note (filteredNotes (notes s) (searchTerm s))
  | EditNoteClick => exists n, MainContent s = NoteDisplay n
  | DeleteNoteClick noteId => exists n, MainContent s = NoteDisplay n /\ noteId = id n
  | SaveNote | CancelClick | TitleChange _ | ContentChange _ =>
      exists m t c, MainContent s = NoteForm m t c
  | CreateNoteClick | SidebarToggle | SearchChange _ | Resize _ => True
  end.

(** ** The list of the sidebar *)

(** One [<li>] of [Sidebar]: the "No notes found." line, or a note with its
    React key, whether it carries the selected class, its title and the date
    shown. *)
Inductive SidebarItem :=
| SidebarNoteEmpty
| SidebarNote (key : string) (selected : bool) (noteTitle : string) (date : Z).

(** [note.id === selectedNoteId]. *)
Definition isSelectedItem (selectedNoteId : option string) (note : Note) : bool :=
  match selectedNoteId with
  | Some i => String.eqb (id note) i
  | None => false
  end.

(** The children of the [<ul>] of [Sidebar]. *)
Definition Sidebar_list (notes : list Note) (selectedNoteId : option string)
  : list SidebarItem :=
  ((if (List.length notes =? 0)%nat then [SidebarNoteEmpty] else [])
   ++ map (fun note => SidebarNote (id note) (isSelectedItem selectedNoteId note)
                                   (title note) (updatedAt note))
          notes)%list.

(** What [App] passes to [Sidebar] for its list. *)
Definition sidebarItems (s : AppState) : list SidebarItem :=
  Sidebar_list (filteredNotes (notes s) (searchTerm s)) (selectedNoteId s).

(** ** Vocabulary of the statements *)

(** The browser after [k] more clock readings. *)
Definition tick (k : nat) (w : World) : World :=
  mkWorld (innerWidth w) (clock w) (k + reads w) (answers w) (confirms w) (alerts w).

(** The text [handleDeleteNoteClick] passes to [window.confirm]. *)
Definition deletePrompt : string := "Are you sure you want to delete this note?".

(** How many notes carry the id [selId]. *)
Definition occurrences (selId : string) (l : list Note) : nat :=
  List.length (filter (fun n => String.eqb (id n) selId) l).

(** Most recently updated first. *)
Definition recentFirst (a b : Note) : Prop := updatedAt b <= updatedAt a.

(** Equal up to the case of the letters, character by character. *)
Definition sameIgnoringCase (u v : string) : Prop :=
  Forall2 (fun c d => lowerChar c = lowerChar d) (chars u) (chars v).

(** [q] occurs in [s] as a substring, up to the case of the letters. *)
Definition containsIgnoringCase (s q : string) : Prop :=
  exists a m b, s = a ++ m ++ b /\ sameIgnoringCase m q.

(** The note built by the create branch of [handleSaveNote]: three clock
    readings, for the id, [createdAt] and [updatedAt]. *)
Definition createdNote (s : AppState) (w : World) : Note :=
  mkNote ("note_" ++ ofNumber (clock w (reads w))) (editTitle s) (editContent s)
         (clock w (1 + reads w)) (clock w (2 + reads w)).

(** [mode === "create"]. *)
Definition isCreateMode (m : Mode) : bool :=
  match m with create => true | _ => false end.

(** Whether an event, in a state, runs the create branch of
    [handleSaveNote]. *)
Definition createsNote (ev : Event) (s : AppState) : bool :=
  match ev with
  | SaveNote => truthy (trim (editTitle s)) && isCreateMode (mode s)
  | _ => false
  end.

(** The clock readings that the creates of a run turn into ids, in order. *)
Fixpoint idReadings (evs : list Event) (s : AppState) (w : World) : list Z :=
  match evs with
  | [] => []
  | ev :: evs' =>
      (if createsNote ev s then [clock w (reads w)] else [])
      ++ idReadings evs' (fst (step ev s w)) (snd (step ev s w))
  end.

(** A run from the first render of the component. *)
Definition session (evs : list Event) : M AppState :=
  s0 <- mount ;; run evs s0.

(** Every event of a run is one the page offers in the state it meets. *)
Fixpoint offeredRun (evs : list Event) (s : AppState) (w : World) : Prop :=
  match evs with
  | [] => True
  | ev :: evs' =>
      offered s ev /\ offeredRun evs' (fst (step ev s w)) (snd (step ev s w))
  end.

(** The ids of the collection are pairwise distinct and come from the seeds
    or from the readings [C]. *)
Definition idsFrom (C : list Z) (ns : list Note) : Prop :=
  NoDup (map id ns)
  /\ forall n, In n ns ->
       id n = "note1" \/ id n = "note2"
       \/ exists t, In t C /\ id n = "note_" ++ ofNumber t.

(** The pages shown along a run, the starting one first. *)
Fixpoint screens (evs : list Event) (s : AppState) (w : World) : list Screen :=
  render s ::
  match evs with
  | [] => []
  | ev :: evs' => screens evs' (fst (step ev s w)) (snd (step ev s w))
  end.

(** Two states that differ in the draft fields at most. *)
Definition sameButDrafts (s1 s2 : AppState) : Prop :=
  notes s1 = notes s2 /\ selectedNoteId s1 = selectedNoteId s2
  /\ sidebarOpen s1 = sidebarOpen s2 /\ searchTerm s1 = searchTerm s2
  /\ mode s1 = mode s2.

(** Equal states, or states in viewing mode with different drafts. *)
Definition draftsUnseen (s1 s2 : AppState) : Prop :=
  s1 = s2 \/ (mode s1 = view /\ sameButDrafts s1 s2).

(** The system clock never runs backwards. *)
Definition clockMonotone (w : World) : Prop :=
  forall i j, (i <= j)%nat -> clock w i <= clock w j.

(** Every [updatedAt] of the collection is a reading already taken. *)
Definition stampedInPast (w : World) (ns : list Note) : Prop :=
  forall n, In n ns -> exists k, (k < reads w)%nat /\ updatedAt n = clock w k.

(** The same clock, some readings later. *)
Definition later (w w' : World) : Prop :=
  clock w' = clock w /\ (reads w <= reads w')%nat.

(** ** Sample states, worlds and event sequences *)

(** The first seed open in the edit form, with edited drafts. *)
Definition edit_example : AppState :=
  mkApp [mkNote "note1" "Welcome" "hello" 1 1; mkNote "note2" "Features" "list" 2 2]
        (Some "note1") true "" edit "First Welcome (Edited)" "All new content".

(** A wide viewport, a clock standing at [now], a user who confirms. *)
Definition world_example (now : Z) : World :=
  mkWorld 1024 (fun _ => now) 0 (fun _ => true) [] [].

(** Two notes, the one updated earlier first. *)
Definition two_notes_oldest_first : list Note :=
  [mkNote "a" "older" "" 1 1; mkNote "b" "newer" "" 2 2].

(** The create form filled in while the search box holds "features". *)
Definition searching_example : AppState :=
  mkApp (seedNotes 1 1 1 1) None true "features" create "Banana Bread Recipe" "".

(** The create form filled in, no search term. *)
Definition creating_example : AppState :=
  mkApp (seedNotes 1 1 1 1) None true "" create "Shopping List" "Milk".

(** Two creates that read the same clock value: the form is opened, a title
    typed and the note saved, twice. *)
Definition double_create : list Event :=
  [CreateNoteClick; TitleChange "a"; SaveNote;
   CreateNoteClick; TitleChange "b"; SaveNote].

(** A note is created, edited and saved again, and a second one created. *)
Definition create_then_edit : list Event :=
  [CreateNoteClick; TitleChange "Shopping List"; SaveNote;
   EditNoteClick; ContentChange "Milk"; SaveNote;
   CreateNoteClick; TitleChange "Second"; SaveNote].

(** A clock that advances by one at every reading. *)
Definition ticking_world : World :=
  mkWorld 1024 (fun i => 1000 + Z.of_nat i) 0 (fun _ => true) [] [].

(** What a user may do after a cancel: select the first seed, edit and save
    it, open the create form. *)
Definition after_cancel_events : list Event :=
  [SelectNote (mkNote "note1" "Welcome to Note Organizer"
                 "This is your first note. Start organizing your thoughts!" 1 1);
   EditNoteClick; TitleChange "x"; SaveNote; CreateNoteClick].

(** The create form with unsaved drafts. *)
Definition cancel_example : AppState :=
  mkApp (seedNotes 1 1 1 1) None true "" create "unsaved title" "unsaved text".

(** The create form is opened and a title typed. *)
Definition open_create_form : list Event :=
  [CreateNoteClick; TitleChange "Shopping List"].

(** A clock set back by the system after the first four readings. *)
Definition stepping_back_world : World :=
  mkWorld 1024 (fun i => if (i <? 4)%nat then 10 else 5) 0 (fun _ => true) [] [].

(** ** Vocabulary of the further properties *)

(** No title of the collection is blank. *)
Definition titlesNotBlank (ns : list Note) : Prop :=
  forall n, In n ns -> trim (title n) <> "".

(** The selected id, if there is one, is the id of a note of the
    collection. *)
Definition selectionLive (s : AppState) : Prop :=
  forall i, selectedNoteId s = Some i -> In i (map id (notes s)).

(** The edit form is only open on a selection. *)
Definition editHasSelection (s : AppState) : Prop :=
  mode s = edit -> selectedNoteId s <> None.

(** Both stamps of every note are readings already taken, [createdAt] not
    after [updatedAt]. *)
Definition stampedInOrder (w : World) (ns : list Note) : Prop :=
  forall n, In n ns ->
    exists i k, (i <= k < reads w)%nat
                /\ createdAt n = clock w i /\ updatedAt n = clock w k.

(** How many events of a sequence are clicks on Delete, and on Save. *)
Definition countDeletes (evs : list Event) : nat :=
  List.length (filter (fun ev => match ev with DeleteNoteClick _ => true | _ => false end) evs).

Definition countSaves (evs : list Event) : nat :=
  List.length (filter (fun ev => match ev with SaveNote => true | _ => false end) evs).

(** The text of the alert of [handleSaveNote]. *)
Definition emptyTitleAlert : string := "Note title cannot be empty".

(** Whether an event, in a state, is a save that the test on the trimmed
    title turns down. *)
Definition rejectsSave (ev : Event) (s : AppState) : bool :=
  match ev with
  | SaveNote => negb (truthy (trim (editTitle s)))
  | _ => false
  end.

(** How many saves of a run are turned down. *)
Fixpoint rejectedSaves (evs : list Event) (s : AppState) (w : World) : nat :=
  match evs with
  | [] => 0
  | ev :: evs' =>
      (if rejectsSave ev s then 1 else 0)
      + rejectedSaves evs' (fst (step ev s w)) (snd (step ev s w))
  end.

(** The keys of the note items, and the keys of those marked selected. *)
Definition itemKeys (items : list SidebarItem) : list string :=
  flat_map (fun it => match it with SidebarNote k _ _ _ => [k] | SidebarNoteEmpty => [] end)
           items.

Definition selectedKeys (items : list SidebarItem) : list string :=
  flat_map (fun it => match it with SidebarNote k true _ _ => [k] | _ => [] end) items.

(** The events that concern the search box, the sidebar and the viewport
    only. *)
Definition layoutEvent (ev : Event) : Prop :=
  match ev with
  | SidebarToggle | SearchChange _ | Resize _ => True
  | _ => False
  end.

(** Two creates under one clock reading, then Edit on the displayed note
    and a new content typed into the form. *)
Definition double_create_then_edit : list Event :=
  [CreateNoteClick; TitleChange "a"; SaveNote;
   CreateNoteClick; TitleChange "b"; SaveNote;
   EditNoteClick; ContentChange "both"].

(** * Properties *)

(** ** Sanity checks of the string and number model *)

Example ofNumber_0 : ofNumber 0 = "0". Proof. reflexivity. Qed.
Example ofNumber_1700 : ofNumber 1700000000123 = "1700000000123". Proof. reflexivity. Qed.
Example trim_ex : trim "  a b  " = "a b". Proof. reflexivity. Qed.
Example includes_ex : includes (toLowerCase "FeaTures") (toLowerCase "ATU") = true.
Proof. reflexivity. Qed.

(** ** Facts about the monad and the setters *)

Lemma bind_ret_eq {A B} (m : M A) (k : A -> M B) w :
  bind m k w = k (fst (m w)) (snd (m w)).
Proof. unfold bind. destruct (m w); reflexivity. Qed.

Lemma truthy_false_iff s : truthy s = false <-> s = "".
Proof. destruct s; simpl; split; congruence. Qed.

Lemma seedEffect_eq s w :
  seedEffect s w =
    if (List.length (notes s) =? 0)%nat
    then (setNotes (seedNotes (clock w (reads w)) (clock w (1 + reads w))
                              (clock w (2 + reads w)) (clock w (3 + reads w))) s,
          tick 4 w)
    else (s, w).
Proof.
  unfold seedEffect. destruct (List.length (notes s) =? 0)%nat; reflexivity.
Qed.

(** A render changes the notes array at most (and reads the clock). *)
Lemma useMemo_notes_frame s : useMemo_notes s = setNotes (notes (useMemo_notes s)) s.
Proof. unfold useMemo_notes. destruct (truthy (searchTerm s)), s; reflexivity. Qed.

Lemma seedEffect_frame s w :
  fst (seedEffect s w) = setNotes (notes (fst (seedEffect s w))) s.
Proof.
  rewrite seedEffect_eq. destruct (List.length (notes s) =? 0)%nat, s; reflexivity.
Qed.

Lemma render_cycle_eq s w :
  render_cycle s w =
    (useMemo_notes (fst (seedEffect (useMemo_notes s) w)),
     snd (seedEffect (useMemo_notes s) w)).
Proof.
  unfold render_cycle. rewrite bind_ret_eq. reflexivity.
Qed.

Lemma render_cycle_frame s w :
  fst (render_cycle s w) = setNotes (notes (fst (render_cycle s w))) s.
Proof.
  rewrite render_cycle_eq, seedEffect_eq. destruct s. unfold useMemo_notes.
  cbn [fst snd searchTerm notes setNotes selectedNoteId sidebarOpen mode
       editTitle editContent].
  repeat (match goal with
          | |- context [if ?b then _ else _] => destruct b
          end;
          cbn [fst snd searchTerm notes setNotes selectedNoteId sidebarOpen mode
               editTitle editContent]);
    reflexivity.
Qed.

(** ** Rejected saves *)

Lemma trimEnd_empty_iff s :
  trimEnd s = "" <-> forallb isWhiteSpace (chars s) = true.
Proof.
  induction s as [|c s IH]; simpl.
  - tauto.
  - destruct (trimEnd s) eqn:E.
    + destruct (isWhiteSpace c); simpl.
      * rewrite <- IH. tauto.
      * split; discriminate.
    + split; [discriminate|].
      intros H. apply andb_true_iff in H as [_ H]. apply IH in H. discriminate.
Qed.

Lemma trimStart_all_white s :
  forallb isWhiteSpace (chars (trimStart s)) = forallb isWhiteSpace (chars s).
Proof.
  induction s as [|c s IH]; simpl; [reflexivity|].
  destruct (isWhiteSpace c) eqn:E; simpl; [exact IH | now rewrite E].
Qed.

(** The trimmed form is empty exactly for the strings made of white space
    only (the empty string among them). *)
Lemma trim_empty_iff s :
  trim s = "" <-> forallb isWhiteSpace (chars s) = true.
Proof.
  unfold trim. rewrite trimEnd_empty_iff, trimStart_all_white. tauto.
Qed.

Lemma handleSaveNote_reject_eq s w :
  trim (editTitle s) = "" ->
  handleSaveNote s w =
    (s, mkWorld (innerWidth w) (clock w) (reads w) (answers w) (confirms w)
                ("Note title cannot be empty" :: alerts w)).
Proof. intros Ht. unfold handleSaveNote. rewrite Ht. reflexivity. Qed.

(** C1: a save request whose title has an empty trimmed form is rejected:
    an alert containing "title cannot be empty" is raised and the handler
    returns the state it was given, so the notes, the selected id and the mode
    (hence the open form) are all unchanged; nothing else of the browser
    changes. *)
Theorem save_empty_title_rejected (s : AppState) (w : World) :
  trim (editTitle s) = "" ->
  exists msg,
    handleSaveNote s w =
      (s, mkWorld (innerWidth w) (clock w) (reads w) (answers w) (confirms w)
                  (msg :: alerts w))
    /\ includes msg "title cannot be empty" = true
    /\ notes (fst (handleSaveNote s w)) = notes s
    /\ selectedNoteId (fst (handleSaveNote s w)) = selectedNoteId s
    /\ mode (fst (handleSaveNote s w)) = mode s
    /\ MainContent (fst (handleSaveNote s w)) = MainContent s.
Proof.
  intros Ht. exists "Note title cannot be empty".
  rewrite (handleSaveNote_reject_eq s w Ht). repeat split; reflexivity.
Qed.

Lemma save_empty_title_rejected_witness :
  exists msg,
    handleSaveNote (mkApp [] None true "" create "   " "body")
                   (mkWorld 1024 (fun _ => 5) 0 (fun _ => true) [] []) =
      (mkApp [] None true "" create "   " "body",
       mkWorld 1024 (fun _ => 5) 0 (fun _ => true) [] [msg])
    /\ includes msg "title cannot be empty" = true.
Proof.
  destruct (save_empty_title_rejected
              (mkApp [] None true "" create "   " "body")
              (mkWorld 1024 (fun _ => 5) 0 (fun _ => true) [] [])
              eq_refl) as (msg & E & Hc & _).
  exists msg. split; assumption.
Defined.

(** ** The sidebar flag *)

(** C8: [sidebarOpen] starts as [width > 768]; a resize sets it to
    [width > 768] of the new width whatever it was before; the toggle negates
    it; at width 500 it starts closed, one toggle opens it and a second one
    closes it again. *)
Theorem sidebar_visibility :
  (forall width, sidebarOpen (initialState width) = true <-> 768 < width)
  /\ (forall w, sidebarOpen (fst (mount w)) = true <-> 768 < innerWidth w)
  /\ (forall width s w,
        sidebarOpen (fst (handle (Resize width) s w)) = (768 <? width)
        /\ sidebarOpen (fst (step (Resize width) s w)) = (768 <? width))
  /\ (forall s w,
        sidebarOpen (fst (handleSidebarToggle s w)) = negb (sidebarOpen s))
  /\ sidebarOpen (initialState 500) = false
  /\ (forall clk k ans cs als,
        let w := mkWorld 500 clk k ans cs als in
        let s0 := fst (mount w) in
        let s1 := fst (handleSidebarToggle s0 (snd (mount w))) in
        let s2 := fst (handleSidebarToggle s1 (snd (mount w))) in
        sidebarOpen s0 = false /\ sidebarOpen s1 = true /\ sidebarOpen s2 = false).
Proof.
  assert (Hrc : forall s w, sidebarOpen (fst (render_cycle s w)) = sidebarOpen s).
  { intros s w. rewrite (render_cycle_frame s w). reflexivity. }
  assert (Hm : forall w, sidebarOpen (fst (mount w)) = (768 <? innerWidth w)).
  { intros w. unfold mount, window_innerWidth. rewrite bind_ret_eq.
    cbn [fst snd]. rewrite Hrc. reflexivity. }
  split; [|split; [|split; [|split; [|split]]]].
  - intros width. cbn [initialState sidebarOpen]. apply Z.ltb_lt.
  - intros w. rewrite Hm. apply Z.ltb_lt.
  - intros width s w. split.
    + reflexivity.
    + unfold step. rewrite bind_ret_eq, Hrc. reflexivity.
  - reflexivity.
  - reflexivity.
  - intros clk k ans cs als. cbv zeta. unfold handleSidebarToggle, ret.
    cbn [fst snd setSidebarOpen sidebarOpen]. rewrite Hm.
    repeat split.
Qed.

(** ** Entering the create form *)

Lemma handleCreateNoteClick_eq s w :
  handleCreateNoteClick s w =
    (mkApp (notes s) None
           (if innerWidth w <=? 768 then false else sidebarOpen s)
           (searchTerm s) create "" "", w).
Proof.
  unfold handleCreateNoteClick, window_innerWidth. rewrite bind_ret_eq.
  cbn [fst snd]. destruct (innerWidth w <=? 768); reflexivity.
Qed.

(** C9: a create request clears the selection, empties both draft fields and
    sets the mode to creating; the notes and the search term stay, and the
    sidebar is closed when the viewport is at most 768 wide. The renders that
    follow keep all of this. *)
Theorem create_click_clears_selection (s : AppState) (w : World) :
  let s' := fst (handleCreateNoteClick s w) in
  let s'' := fst (step CreateNoteClick s w) in
  selectedNoteId s' = None
  /\ editTitle s' = "" /\ editContent s' = ""
  /\ mode s' = create
  /\ notes s' = notes s /\ searchTerm s' = searchTerm s
  /\ sidebarOpen s' = (if innerWidth w <=? 768 then false else sidebarOpen s)
  /\ snd (handleCreateNoteClick s w) = w
  /\ selectedNoteId s'' = None /\ editTitle s'' = "" /\ editContent s'' = ""
  /\ mode s'' = create /\ MainContent s'' = NoteForm create "" "".
Proof.
  cbv zeta.
  unfold step. cbn [handle]. rewrite bind_ret_eq, handleCreateNoteClick_eq.
  cbn [fst snd].
  rewrite render_cycle_frame.
  repeat split; reflexivity.
Qed.

(** ** Saving *)

Lemma handleSaveNote_idle_eq s w :
  trim (editTitle s) <> "" ->
  mode s = view \/ (mode s = edit /\ selectedNote s = None) ->
  handleSaveNote s w = (setMode view s, w).
Proof.
  intros Ht Hm. unfold handleSaveNote.
  destruct (trim (editTitle s)) eqn:Et; [congruence|]. cbn [truthy negb].
  destruct Hm as [Hv | [He Hn]].
  - rewrite Hv. reflexivity.
  - rewrite He, Hn. reflexivity.
Qed.

(** C10: in viewing mode, or in editing mode with a selected id that matches
    no note, a save with a title whose trimmed form is not empty changes
    nothing but the mode, which becomes viewing: the notes and the selection
    are as before and the browser is untouched. *)
Theorem save_outside_form_only_resets_mode (s : AppState) (w : World) :
  trim (editTitle s) <> "" ->
  mode s = view \/ (mode s = edit /\ selectedNote s = None) ->
  handleSaveNote s w = (setMode view s, w)
  /\ notes (fst (handleSaveNote s w)) = notes s
  /\ selectedNoteId (fst (handleSaveNote s w)) = selectedNoteId s
  /\ mode (fst (handleSaveNote s w)) = view.
Proof.
  intros Ht Hm.
  rewrite (handleSaveNote_idle_eq s w Ht Hm). repeat split; reflexivity.
Qed.

Lemma save_outside_form_only_resets_mode_witness :
  handleSaveNote (mkApp (seedNotes 1 1 1 1) (Some "gone") true "" edit "Title" "x")
                 (mkWorld 1024 (fun _ => 5) 0 (fun _ => true) [] [])
  = (mkApp (seedNotes 1 1 1 1) (Some "gone") true "" view "Title" "x",
     mkWorld 1024 (fun _ => 5) 0 (fun _ => true) [] []).
Proof.
  apply (save_outside_form_only_resets_mode
           (mkApp (seedNotes 1 1 1 1) (Some "gone") true "" edit "Title" "x")
           (mkWorld 1024 (fun _ => 5) 0 (fun _ => true) [] [])).
  - discriminate.
  - right. split; reflexivity.
Defined.

(** ** Deleting *)

Lemma handleDeleteNoteClick_eq x s w :
  handleDeleteNoteClick x s w =
    (if answers w (List.length (confirms w))
     then mkApp (filter (fun n => negb (String.eqb (id n) x)) (notes s)) None
                (sidebarOpen s) (searchTerm s) view (editTitle s) (editContent s)
     else s,
     mkWorld (innerWidth w) (clock w) (reads w) (answers w)
             (deletePrompt :: confirms w) (alerts w)).
Proof.
  unfold handleDeleteNoteClick, window_confirm. rewrite bind_ret_eq. cbn [fst snd].
  destruct (answers w (List.length (confirms w))); reflexivity.
Qed.

(** The claim of C3 fails where the deleted note is not the selected one:
    with "note1" selected and the form open for editing it, a confirmed delete
    of "note2" clears the selection and leaves the form. *)
Lemma delete_other_note_clears_selection :
  ~ (forall (x : string) (s : AppState) (w : World),
       answers w (List.length (confirms w)) = true ->
       selectedNoteId s <> Some x ->
       selectedNoteId (fst (handleDeleteNoteClick x s w)) = selectedNoteId s
       /\ mode (fst (handleDeleteNoteClick x s w)) = mode s).
Proof.
  intros H.
  specialize (H "note2"
                (mkApp (seedNotes 1 1 1 1) (Some "note1") true "" edit "a" "b")
                (mkWorld 1024 (fun _ => 5) 0 (fun _ => true) [] [])
                eq_refl).
  destruct H as [H _]; [discriminate|]. discriminate H.
Qed.

(** C3, amended: the prompt asks to "delete this note"; on a confirmed
    delete of id [x] every note with that id leaves the collection and the
    others stay in order, the selection is cleared and the mode becomes
    viewing, whether or not [x] was selected; on a declined one the state is
    the one before. *)
Theorem delete_confirmed_or_declined (x : string) (s : AppState) (w : World) :
  let s' := fst (handleDeleteNoteClick x s w) in
  includes deletePrompt "delete this note" = true
  /\ confirms (snd (handleDeleteNoteClick x s w)) = deletePrompt :: confirms w
  /\ (if answers w (List.length (confirms w))
      then notes s' = filter (fun n => negb (String.eqb (id n) x)) (notes s)
           /\ (forall n, In n (notes s') <-> In n (notes s) /\ id n <> x)
           /\ selectedNoteId s' = None
           /\ mode s' = view
      else s' = s).
Proof.
  cbv zeta. rewrite handleDeleteNoteClick_eq. cbn [fst snd confirms].
  split; [reflexivity|]. split; [reflexivity|].
  destruct (answers w (List.length (confirms w))); [|reflexivity].
  cbn [notes selectedNoteId mode].
  split; [reflexivity|]. split; [|split; reflexivity].
  intros n. rewrite filter_In, negb_true_iff, String.eqb_neq. tauto.
Qed.

(** The page offers Delete only on the note it displays, which is the
    selected one. *)
Lemma delete_offered_only_for_selected x s :
  offered s (DeleteNoteClick x) -> selectedNoteId s = Some x /\ mode s = view.
Proof.
  cbn [offered]. intros (n & Hn & ->). unfold MainContent, selectedNote in Hn.
  destruct (selectedNoteId s) as [i|]; [|destruct (mode s); discriminate].
  destruct (find (fun n0 => (id n0 =? i)%string) (notes s)) as [m|] eqn:Ef;
    [|destruct (mode s); discriminate].
  apply find_some in Ef as [_ Ef]. apply String.eqb_eq in Ef.
  destruct (mode s); inversion Hn; subst; split; reflexivity.
Qed.

(** Deleting the last note empties the array and the seeding effect then puts
    both sample notes back, the deleted "note1" among them. *)
Lemma delete_last_note_reseeds :
  map id (notes (fst (step (DeleteNoteClick "note1")
                       (mkApp [mkNote "note1" "t" "c" 1 1] (Some "note1") true "" view "" "")
                       (mkWorld 1024 (fun _ => 5) 0 (fun _ => true) [] []))))
  = ["note1"; "note2"].
Proof. reflexivity. Qed.

(** ** Updating *)

Lemma tick_tick j k w : tick j (tick k w) = tick (j + k) w.
Proof. unfold tick. cbn. f_equal. lia. Qed.

Lemma tick_0 w : tick 0 w = w.
Proof. destruct w; reflexivity. Qed.

Lemma saveCallback_eq selId t c n w :
  saveCallback selId t c n w =
    if String.eqb (id n) selId
    then (spread_update n t c (clock w (reads w)), tick 1 w)
    else (n, w).
Proof. unfold saveCallback. destruct (String.eqb (id n) selId); reflexivity. Qed.

Lemma occurrences_cons selId n l :
  occurrences selId (n :: l) =
    if String.eqb (id n) selId then S (occurrences selId l) else occurrences selId l.
Proof.
  unfold occurrences. cbn [filter].
  destruct (String.eqb (id n) selId); reflexivity.
Qed.

(** What [notes.map] of the edit branch returns: position by position, a note
    with another id is the same object, a note with the selected id is
    re-stamped with a clock reading taken during the save. *)
Lemma array_map_saveCallback selId t c l : forall w,
  Forall2 (fun m m' =>
             if String.eqb (id m) selId
             then exists k, (reads w <= k < reads w + occurrences selId l)%nat
                            /\ m' = spread_update m t c (clock w k)
             else m' = m)
          l (fst (array_map (saveCallback selId t c) l w))
  /\ snd (array_map (saveCallback selId t c) l w) = tick (occurrences selId l) w.
Proof.
  induction l as [|n l IH]; intros w.
  - split; [constructor | symmetry; apply tick_0].
  - cbn [array_map]. rewrite bind_ret_eq, bind_ret_eq. cbn [ret fst snd].
    rewrite saveCallback_eq, occurrences_cons.
    destruct (String.eqb (id n) selId) eqn:E; cbn [fst snd].
    + destruct (IH (tick 1 w)) as [IHf IHw]. split.
      * constructor.
        -- rewrite E. exists (reads w). split; [lia | reflexivity].
        -- eapply Forall2_impl; [|exact IHf].
           intros m m'. cbn beta. destruct (String.eqb (id m) selId); [|trivial].
           intros (k & Hk & ->). exists k. cbn in Hk. split; [lia | reflexivity].
      * rewrite IHw, tick_tick. f_equal. lia.
    + destruct (IH w) as [IHf IHw]. split.
      * constructor; [rewrite E; reflexivity | exact IHf].
      * exact IHw.
Qed.

Lemma occurrences_0 selId l :
  ~ In selId (map id l) -> occurrences selId l = 0%nat.
Proof.
  unfold occurrences. induction l as [|n l IH]; cbn; [reflexivity|].
  intros Hn. destruct (String.eqb (id n) selId) eqn:E.
  - apply String.eqb_eq in E. tauto.
  - apply IH. tauto.
Qed.

(** With pairwise distinct ids the selected id occurs once. *)
Lemma occurrences_NoDup selId l :
  NoDup (map id l) -> In selId (map id l) -> occurrences selId l = 1%nat.
Proof.
  induction l as [|n l IH]; cbn [map]; intros Hnd Hin; [destruct Hin|].
  inversion Hnd as [|? ? Hni Hnd']; subst.
  unfold occurrences. cbn [filter]. destruct (String.eqb (id n) selId) eqn:E.
  - apply String.eqb_eq in E. subst selId.
    cbn [List.length]. f_equal. apply occurrences_0. assumption.
  - apply String.eqb_neq in E. destruct Hin as [Hin|Hin]; [congruence|].
    apply IH; assumption.
Qed.

Lemma selectedNote_Some s n :
  selectedNote s = Some n -> In n (notes s) /\ selectedNoteId s = Some (id n).
Proof.
  unfold selectedNote. destruct (selectedNoteId s) as [i|]; [|discriminate].
  intros Hf. apply find_some in Hf as [Hin He]. apply String.eqb_eq in He.
  subst i. split; [assumption | reflexivity].
Qed.

Lemma handleSaveNote_edit_eq s w n :
  trim (editTitle s) <> "" -> mode s = edit -> selectedNote s = Some n ->
  handleSaveNote s w =
    (mkApp (fst (array_map (saveCallback (id n) (editTitle s) (editContent s)) (notes s) w))
           (Some (id n)) (sidebarOpen s) (searchTerm s) view (editTitle s) (editContent s),
     snd (array_map (saveCallback (id n) (editTitle s) (editContent s)) (notes s) w)).
Proof.
  intros Ht Hm Hs. unfold handleSaveNote.
  destruct (trim (editTitle s)) eqn:Et; [congruence|]. cbn [truthy negb].
  rewrite Hm, Hs. repeat rewrite bind_ret_eq. reflexivity.
Qed.

Lemma Forall2_nth_error_left {A B} (R : A -> B -> Prop) l l' :
  Forall2 R l l' ->
  forall i a, nth_error l i = Some a -> exists b, nth_error l' i = Some b /\ R a b.
Proof.
  induction 1 as [|x y l l' Hxy _ IH]; intros [|i] a Hi; try discriminate.
  - inversion Hi; subst. exists y. split; [reflexivity | assumption].
  - apply IH. exact Hi.
Qed.

Lemma Forall2_eq_map {A B} (f : A -> B) l l' :
  Forall2 (fun a b => b = f a) l l' -> l' = map f l.
Proof. induction 1; cbn; congruence. Qed.

(** The claim of C4 fails where another note carries the id of the selected
    one: after two creates under one clock reading the collection holds two
    notes "note_5"; the save of the edit form opened on the newer one also
    rewrites the older one, at the second position. *)
Lemma save_edit_rewrites_same_id_note :
  ~ (forall (evs : list Event) (w0 : World),
       offeredRun evs (fst (mount w0)) (snd (mount w0)) ->
       let s := fst (session evs w0) in
       let w := snd (session evs w0) in
       forall n, trim (editTitle s) <> "" -> mode s = edit ->
                 selectedNote s = Some n ->
                 forall i m, nth_error (notes s) i = Some m -> m <> n ->
                             nth_error (notes (fst (handleSaveNote s w))) i = Some m).
Proof.
  intros H.
  assert (Hoff : offeredRun double_create_then_edit
                   (fst (mount (world_example 5))) (snd (mount (world_example 5)))).
  { vm_compute. repeat split; eauto. }
  specialize (H double_create_then_edit (world_example 5) Hoff
                (mkNote "note_5" "b" "" 5 5)).
  cbv zeta in H.
  assert (Hsave : nth_error
                    (notes (fst (handleSaveNote
                                   (fst (session double_create_then_edit (world_example 5)))
                                   (snd (session double_create_then_edit (world_example 5))))))
                    1
                  = Some (mkNote "note_5" "b" "both" 5 5))
    by (vm_compute; reflexivity).
  rewrite (H ltac:(vm_compute; discriminate) ltac:(vm_compute; reflexivity)
             ltac:(vm_compute; reflexivity)
             1%nat (mkNote "note_5" "a" "" 5 5)
             ltac:(vm_compute; reflexivity) ltac:(discriminate)) in Hsave.
  discriminate Hsave.
Qed.

(** C4, amended: a save in editing mode, with the note [n] selected and a
    title whose trimmed form is not empty, goes position by position through
    the notes: a note with another id is left as it is; a note with the id of
    [n] gets the draft title and content and a clock reading of the save as
    [updatedAt], and keeps [id] and [createdAt]. The selection is still [n],
    the mode becomes viewing, no alert is raised. The note [n] itself sits at
    its old position with the new fields; when the drafts equal its title and
    content only its [updatedAt] differs. With pairwise distinct ids exactly
    one reading is taken and only [n] changes: every other note is
    unchanged. *)
Theorem save_edit_updates_selected (s : AppState) (w : World) (n : Note) :
  trim (editTitle s) <> "" -> mode s = edit -> selectedNote s = Some n ->
  let s' := fst (handleSaveNote s w) in
  let w' := snd (handleSaveNote s w) in
  Forall2 (fun m m' =>
             if String.eqb (id m) (id n)
             then exists k, (reads w <= k < reads w')%nat
                    /\ m' = mkNote (id m) (editTitle s) (editContent s)
                                   (createdAt m) (clock w k)
             else m' = m)
          (notes s) (notes s')
  /\ selectedNoteId s' = selectedNoteId s
  /\ selectedNoteId s' = Some (id n)
  /\ mode s' = view
  /\ w' = tick (occurrences (id n) (notes s)) w
  /\ (exists i k,
        nth_error (notes s) i = Some n
        /\ (reads w <= k < reads w')%nat
        /\ nth_error (notes s') i =
             Some (mkNote (id n) (editTitle s) (editContent s) (createdAt n) (clock w k))
        /\ (editTitle s = title n -> editContent s = content n ->
            nth_error (notes s') i =
              Some (mkNote (id n) (title n) (content n) (createdAt n) (clock w k))))
  /\ (NoDup (map id (notes s)) ->
        w' = tick 1 w
        /\ notes s' =
             map (fun m => if String.eqb (id m) (id n)
                           then mkNote (id m) (editTitle s) (editContent s)
                                       (createdAt m) (clock w (reads w))
                           else m)
                 (notes s)
        /\ forall m, In m (notes s) -> m <> n -> In m (notes s')).
Proof.
  intros Ht Hm Hs. cbv zeta.
  rewrite (handleSaveNote_edit_eq s w n Ht Hm Hs). cbn [fst snd notes selectedNoteId mode].
  destruct (selectedNote_Some s n Hs) as [Hin Hsel].
  destruct (array_map_saveCallback (id n) (editTitle s) (editContent s) (notes s) w)
    as [Hf Hw].
  rewrite Hw. cbn [tick reads].
  assert (Hf' : Forall2 (fun m m' =>
             if String.eqb (id m) (id n)
             then exists k, (reads w <= k < occurrences (id n) (notes s) + reads w)%nat
                    /\ m' = mkNote (id m) (editTitle s) (editContent s)
                                   (createdAt m) (clock w k)
             else m' = m)
          (notes s)
          (fst (array_map (saveCallback (id n) (editTitle s) (editContent s)) (notes s) w))).
  { eapply Forall2_impl; [|exact Hf]. intros m m'. cbn beta.
    destruct (String.eqb (id m) (id n)); [|trivial].
    intros (k & Hk & ->). exists k. split; [lia | reflexivity]. }
  split; [exact Hf'|]. split; [symmetry; exact Hsel|]. split; [reflexivity|].
  split; [reflexivity|]. split; [reflexivity|]. split.
  - destruct (In_nth_error _ _ Hin) as [i Hi].
    destruct (Forall2_nth_error_left _ _ _ Hf' i n Hi) as (n' & Hi' & Hn').
    rewrite String.eqb_refl in Hn'. destruct Hn' as (k & Hk & ->).
    exists i, k. split; [exact Hi|]. split; [exact Hk|]. split; [exact Hi'|].
    intros <- <-. exact Hi'.
  - intros Hnd.
    assert (Ho : occurrences (id n) (notes s) = 1%nat).
    { apply occurrences_NoDup; [assumption | apply in_map; assumption]. }
    rewrite Ho in *. split; [reflexivity|].
    assert (Hmap : fst (array_map (saveCallback (id n) (editTitle s) (editContent s))
                          (notes s) w) =
             map (fun m => if String.eqb (id m) (id n)
                           then mkNote (id m) (editTitle s) (editContent s)
                                       (createdAt m) (clock w (reads w))
                           else m) (notes s)).
    { apply Forall2_eq_map. eapply Forall2_impl; [|exact Hf'].
      intros m m'. cbn beta. destruct (String.eqb (id m) (id n)); [|trivial].
      intros (k & Hk & ->). replace k with (reads w) by lia. reflexivity. }
    split; [exact Hmap|].
    intros m Hinm Hne. rewrite Hmap. apply in_map_iff. exists m. split; [|assumption].
    destruct (String.eqb (id m) (id n)) eqn:E; [|reflexivity].
    exfalso. apply String.eqb_eq in E. apply Hne.
    clear - Hnd Hin Hinm E. induction (notes s) as [|a l IH]; [destruct Hin|].
    cbn [map] in Hnd. inversion Hnd as [|? ? Hni Hnd']; subst.
    destruct Hin as [<-|Hin], Hinm as [<-|Hinm]; try reflexivity.
    + exfalso. apply Hni. rewrite <- E. apply in_map. assumption.
    + exfalso. apply Hni. rewrite E. apply in_map. assumption.
    + apply IH; assumption.
Qed.

Lemma save_edit_updates_selected_witness :
  notes (fst (handleSaveNote edit_example (world_example 9))) =
    [mkNote "note1" "First Welcome (Edited)" "All new content" 1 9;
     mkNote "note2" "Features" "list" 2 2]
  /\ selectedNoteId (fst (handleSaveNote edit_example (world_example 9))) = Some "note1"
  /\ mode (fst (handleSaveNote edit_example (world_example 9))) = view.
Proof.
  destruct (save_edit_updates_selected edit_example (world_example 9)
              (mkNote "note1" "Welcome" "hello" 1 1))
    as (_ & _ & Hsel & Hmode & _ & _ & Hnd).
  - discriminate.
  - reflexivity.
  - reflexivity.
  - destruct Hnd as (_ & Hnotes & _).
    + repeat constructor; cbn; intuition discriminate.
    + split; [exact Hnotes|]. split; [exact Hsel | exact Hmode].
Defined.

(** ** Sorting *)

Section SortFacts.
Context {A : Type} (cmp : A -> A -> Z).

Lemma sort_insert_perm x l : Permutation (sort_insert cmp x l) (x :: l).
Proof.
  induction l as [|y l IH]; cbn; [reflexivity|].
  destruct (0 <? cmp x y); [|reflexivity].
  rewrite IH. apply perm_swap.
Qed.

Lemma array_sort_perm l : Permutation (array_sort cmp l) l.
Proof.
  induction l as [|x l IH]; cbn; [reflexivity|].
  rewrite sort_insert_perm. constructor. exact IH.
Qed.

Lemma array_sort_In x l : In x (array_sort cmp l) <-> In x l.
Proof.
  split; apply Permutation_in; [|symmetry]; apply array_sort_perm.
Qed.
End SortFacts.

Lemma sort_insert_sorted x l :
  StronglySorted recentFirst l ->
  StronglySorted recentFirst (sort_insert sortByRecent x l).
Proof.
  induction 1 as [|y l Hs IH Hy]; cbn.
  - repeat constructor.
  - unfold sortByRecent at 1. destruct (0 <? updatedAt y - updatedAt x) eqn:E.
    + apply Z.ltb_lt in E. constructor; [exact IH|].
      apply Forall_forall. intros z Hz.
      apply (Permutation_in _ (sort_insert_perm sortByRecent x l)) in Hz.
      destruct Hz as [<-|Hz].
      * unfold recentFirst. lia.
      * rewrite Forall_forall in Hy. apply Hy. exact Hz.
    + apply Z.ltb_ge in E. constructor; [constructor; assumption|].
      constructor; [unfold recentFirst; lia|].
      eapply Forall_impl; [|exact Hy]. unfold recentFirst. intros z Hz. lia.
Qed.

Lemma array_sort_sorted l : StronglySorted recentFirst (array_sort sortByRecent l).
Proof.
  induction l as [|x l IH]; cbn; [constructor | apply sort_insert_sorted, IH].
Qed.

(** A sorted array is left as it is. *)
Lemma array_sort_fixed l :
  StronglySorted recentFirst l -> array_sort sortByRecent l = l.
Proof.
  induction 1 as [|x l Hs IH Hx]; cbn; [reflexivity|].
  rewrite IH. destruct l as [|y l]; cbn; [reflexivity|].
  inversion Hx as [|? ? Hy _]; subst. unfold recentFirst in Hy.
  unfold sortByRecent. destruct (0 <? updatedAt y - updatedAt x) eqn:E; [|reflexivity].
  apply Z.ltb_lt in E. lia.
Qed.

(** The sort is stable: the notes of one [updatedAt] keep their order. *)
Lemma array_sort_stable (t : Z) l :
  filter (fun n => updatedAt n =? t) (array_sort sortByRecent l) =
  filter (fun n => updatedAt n =? t) l.
Proof.
  induction l as [|x l IH]; cbn [array_sort]; [reflexivity|].
  cbn [filter]. rewrite <- IH.
  generalize (array_sort sortByRecent l) as r. clear IH.
  induction r as [|y r IHr]; cbn [sort_insert]; [reflexivity|].
  unfold sortByRecent at 1. destruct (0 <? updatedAt y - updatedAt x) eqn:E.
  - apply Z.ltb_lt in E. cbn [filter]. rewrite IHr.
    destruct (updatedAt x =? t) eqn:Ex; [|reflexivity].
    apply Z.eqb_eq in Ex. destruct (updatedAt y =? t) eqn:Ey; [|reflexivity].
    apply Z.eqb_eq in Ey. lia.
  - reflexivity.
Qed.

(** A note stamped no earlier than the others and placed at the front stays
    at the front. *)
Lemma array_sort_front x l :
  (forall y, In y l -> updatedAt y <= updatedAt x) ->
  array_sort sortByRecent (x :: l) = x :: array_sort sortByRecent l.
Proof.
  intros Hx. cbn [array_sort].
  destruct (array_sort sortByRecent l) as [|y r] eqn:E; [reflexivity|].
  cbn [sort_insert]. unfold sortByRecent at 1.
  assert (Hy : updatedAt y <= updatedAt x).
  { apply Hx. apply (array_sort_In sortByRecent). rewrite E. left. reflexivity. }
  destruct (0 <? updatedAt y - updatedAt x) eqn:E'; [|reflexivity].
  apply Z.ltb_lt in E'. lia.
Qed.

(** ** Searching *)

Lemma startsWith_spec s q : startsWith s q = true <-> exists b, s = q ++ b.
Proof.
  revert s. induction q as [|d q IH]; intros s; cbn.
  - split; [intros _; exists s; reflexivity | reflexivity].
  - destruct s as [|c s].
    + split; [discriminate | intros [b Hb]; discriminate].
    + rewrite andb_true_iff, Ascii.eqb_eq, IH. split.
      * intros [-> [b ->]]. exists b. reflexivity.
      * intros [b Hb]. inversion Hb; subst. split; [reflexivity | exists b; reflexivity].
Qed.

Lemma includes_spec s q : includes s q = true <-> exists a b, s = a ++ q ++ b.
Proof.
  induction s as [|c s IH].
  - cbn [includes]. rewrite orb_false_r, startsWith_spec. split.
    + intros [b Hb]. exists "", b. exact Hb.
    + intros (a & b & H). destruct a; [exists b; exact H | discriminate].
  - cbn [includes]. rewrite orb_true_iff, startsWith_spec, IH. split.
    + intros [[b Hb] | (a & b & Hab)].
      * exists "", b. exact Hb.
      * exists (String c a), b. cbn. rewrite Hab. reflexivity.
    + intros (a & b & H). destruct a as [|c' a].
      * left. exists b. exact H.
      * right. inversion H; subst. exists a, b. reflexivity.
Qed.

Lemma toLowerCase_app u v : toLowerCase (u ++ v) = toLowerCase u ++ toLowerCase v.
Proof. induction u as [|c u IH]; cbn; [reflexivity | rewrite IH; reflexivity]. Qed.

Lemma toLowerCase_split s : forall x y,
  toLowerCase s = x ++ y ->
  exists u v, s = u ++ v /\ toLowerCase u = x /\ toLowerCase v = y.
Proof.
  induction s as [|c s IH]; intros x y H.
  - destruct x; [|discriminate]. cbn in H. exists "", "". repeat split. exact H.
  - destruct x as [|d x].
    + exists "", (String c s). repeat split. exact H.
    + cbn in H. inversion H as [[Hc Hs]]. destruct (IH _ _ Hs) as (u & v & -> & Hu & Hv).
      exists (String c u), v. cbn. rewrite Hu. repeat split. exact Hv.
Qed.

Lemma sameIgnoringCase_iff u v :
  sameIgnoringCase u v <-> toLowerCase u = toLowerCase v.
Proof.
  unfold sameIgnoringCase. revert v. induction u as [|c u IH]; intros [|d v]; cbn.
  - split; [reflexivity | constructor].
  - split; [intros H; inversion H | discriminate].
  - split; [intros H; inversion H | discriminate].
  - split.
    + intros H. inversion H; subst. f_equal; [assumption | apply IH; assumption].
    + intros H. inversion H. constructor; [assumption | apply IH; assumption].
Qed.

(** The test of [filteredNotes] on one field is the case-insensitive
    substring test. *)
Lemma includes_toLowerCase_spec s q :
  includes (toLowerCase s) (toLowerCase q) = true <-> containsIgnoringCase s q.
Proof.
  rewrite includes_spec. unfold containsIgnoringCase. split.
  - intros (a' & b' & H).
    destruct (toLowerCase_split _ _ _ H) as (a & r & -> & Ha & Hr).
    destruct (toLowerCase_split _ _ _ Hr) as (m & b & -> & Hm & Hb).
    exists a, m, b. split; [reflexivity|]. apply sameIgnoringCase_iff. exact Hm.
  - intros (a & m & b & -> & Hm). apply sameIgnoringCase_iff in Hm.
    exists (toLowerCase a), (toLowerCase b).
    rewrite !toLowerCase_app, Hm. reflexivity.
Qed.

Lemma matchesSearch_spec q n :
  matchesSearch q n = true <->
  containsIgnoringCase (title n) q \/ containsIgnoringCase (content n) q.
Proof.
  unfold matchesSearch. rewrite orb_true_iff, !includes_toLowerCase_spec. tauto.
Qed.

Lemma matchesSearch_empty n : matchesSearch "" n = true.
Proof.
  apply matchesSearch_spec. left. exists "", "", (title n).
  split; [reflexivity | constructor].
Qed.

Lemma filter_all {A} (p : A -> bool) l : (forall x, p x = true) -> filter p l = l.
Proof.
  intros Hp. induction l as [|x l IH]; cbn; [reflexivity|]. rewrite Hp, IH. reflexivity.
Qed.

(** Both branches of [filteredNotes] sort the matching notes. *)
Lemma filteredNotes_eq ns q :
  filteredNotes ns q = array_sort sortByRecent (filter (matchesSearch q) ns).
Proof.
  unfold filteredNotes. destruct q as [|c q]; cbn [truthy negb]; [|reflexivity].
  rewrite (filter_all _ _ matchesSearch_empty). reflexivity.
Qed.

(** The claim of C6 fails for the empty query on an array that is not in
    order of recency: the result is reordered. *)
Lemma empty_query_reorders :
  ~ (forall ns : list Note, filteredNotes ns "" = ns).
Proof.
  intros H. specialize (H two_notes_oldest_first). discriminate H.
Qed.

(** C6, amended: for every array of notes and every query, the result holds
    exactly the notes whose title or whose content contains the query as a
    case-insensitive substring, each as often as the array does (it is a
    rearrangement of the matching notes and so a part of the input); the
    empty query returns all notes, in order of recency, and returns the array
    unchanged exactly when it already is in that order. *)
Theorem filteredNotes_selects_matches (ns : list Note) (q : string) :
  (forall n, In n (filteredNotes ns q) <->
             In n ns /\ (containsIgnoringCase (title n) q
                         \/ containsIgnoringCase (content n) q))
  /\ Permutation (filteredNotes ns q) (filter (matchesSearch q) ns)
  /\ incl (filteredNotes ns q) ns
  /\ (List.length (filteredNotes ns q) <= List.length ns)%nat
  /\ Permutation (filteredNotes ns "") ns
  /\ StronglySorted recentFirst (filteredNotes ns "")
  /\ (filteredNotes ns "" = ns <-> StronglySorted recentFirst ns).
Proof.
  rewrite !filteredNotes_eq.
  assert (Hp : Permutation (array_sort sortByRecent (filter (matchesSearch q) ns))
                           (filter (matchesSearch q) ns)) by apply array_sort_perm.
  assert (He : filter (matchesSearch "") ns = ns)
    by apply (filter_all _ _ matchesSearch_empty).
  split; [|split; [|split; [|split; [|split; [|split]]]]].
  - intros n. rewrite array_sort_In, filter_In, matchesSearch_spec. tauto.
  - exact Hp.
  - intros n Hn. apply (Permutation_in _ Hp) in Hn. apply filter_In in Hn. tauto.
  - rewrite (Permutation_length Hp). apply filter_length_le.
  - rewrite He. apply array_sort_perm.
  - apply array_sort_sorted.
  - rewrite He. split.
    + intros H. rewrite <- H. apply array_sort_sorted.
    + apply array_sort_fixed.
Qed.

(** ** Creating *)

Lemma handleSaveNote_create_eq s w :
  trim (editTitle s) <> "" -> mode s = create ->
  handleSaveNote s w =
    (mkApp (createdNote s w :: notes s) (Some (id (createdNote s w)))
           (sidebarOpen s) (searchTerm s) view (editTitle s) (editContent s),
     tick 3 w).
Proof.
  intros Ht Hm. unfold handleSaveNote.
  destruct (trim (editTitle s)) eqn:Et; [congruence|]. cbn [truthy negb].
  rewrite Hm. reflexivity.
Qed.

(** The claim of C5 fails for a note created while a search term it does not
    match is active: the visible list is the one match, the new note is not
    in it. *)
Lemma created_note_hidden_by_search :
  ~ (forall (s : AppState) (w : World),
       trim (editTitle s) <> "" -> mode s = create ->
       exists rest,
         filteredNotes (notes (fst (handleSaveNote s w)))
                       (searchTerm (fst (handleSaveNote s w)))
         = createdNote s w :: rest).
Proof.
  intros H.
  destruct (H searching_example (world_example 5)) as [rest Hrest].
  - discriminate.
  - reflexivity.
  - vm_compute in Hrest. discriminate Hrest.
Qed.


(** ** Ids *)

Lemma run_cons ev evs s w :
  run (ev :: evs) s w = run evs (fst (step ev s w)) (snd (step ev s w)).
Proof. cbn [run]. apply bind_ret_eq. Qed.

Lemma session_eq evs w : session evs w = run evs (fst (mount w)) (snd (mount w)).
Proof. unfold session. apply bind_ret_eq. Qed.

Lemma ofNumber_inj x y : ofNumber x = ofNumber y -> x = y.
Proof.
  unfold ofNumber. intros H.
  assert (Hd : Z.to_int x = Z.to_int y).
  { pose proof (NilEmpty.isi (Z.to_int x)) as Hx.
    pose proof (NilEmpty.isi (Z.to_int y)) as Hy.
    rewrite H in Hx. congruence. }
  rewrite <- (DecimalZ.of_to x), <- (DecimalZ.of_to y), Hd. reflexivity.
Qed.

Lemma idsFrom_mono C C' ns :
  incl C C' -> idsFrom C ns -> idsFrom C' ns.
Proof.
  intros Hi [Hnd Hf]. split; [exact Hnd|].
  intros n Hn. destruct (Hf n Hn) as [H|[H|(t & Ht & H)]]; auto.
  right. right. exists t. auto.
Qed.

Lemma idsFrom_perm C ns ns' :
  Permutation ns ns' -> idsFrom C ns -> idsFrom C ns'.
Proof.
  intros Hp [Hnd Hf]. split.
  - eapply Permutation_NoDup; [|exact Hnd]. apply Permutation_map. exact Hp.
  - intros n Hn. apply Hf. eapply Permutation_in; [symmetry; exact Hp | exact Hn].
Qed.

Lemma idsFrom_seed C c1 u1 c2 u2 : idsFrom C (seedNotes c1 u1 c2 u2).
Proof.
  split.
  - cbn. repeat constructor; cbn; intuition discriminate.
  - intros n [<-|[<-|[]]]; cbn; auto.
Qed.

Lemma NoDup_map_filter {A B} (f : A -> B) (p : A -> bool) l :
  NoDup (map f l) -> NoDup (map f (filter p l)).
Proof.
  induction l as [|x l IH]; cbn; [trivial|].
  intros H. inversion H as [|? ? Hni Hnd]; subst.
  destruct (p x); cbn; [|auto].
  constructor; [|auto].
  intros Hin. apply Hni. apply in_map_iff in Hin as (y & Hy & Hin).
  apply filter_In in Hin as [Hin _]. apply in_map_iff. eauto.
Qed.

Lemma idsFrom_filter C p ns : idsFrom C ns -> idsFrom C (filter p ns).
Proof.
  intros [Hnd Hf]. split; [apply NoDup_map_filter; exact Hnd|].
  intros n Hn. apply filter_In in Hn as [Hn _]. auto.
Qed.

Lemma array_map_saveCallback_ids selId t c l w :
  map id (fst (array_map (saveCallback selId t c) l w)) = map id l.
Proof.
  destruct (array_map_saveCallback selId t c l w) as [Hf _].
  revert Hf. generalize (occurrences selId l) as k.
  generalize (fst (array_map (saveCallback selId t c) l w)) as r.
  intros r k Hf. induction Hf as [|m m' l0 r0 Hm _ IH]; cbn; [reflexivity|].
  rewrite IH. f_equal.
  destruct (String.eqb (id m) selId); [|congruence].
  destruct Hm as (j & _ & ->). reflexivity.
Qed.

Lemma idsFrom_ids C ns ns' :
  map id ns' = map id ns -> idsFrom C ns -> idsFrom C ns'.
Proof.
  intros He [Hnd Hf]. split; [rewrite He; exact Hnd|].
  intros n Hn. apply (in_map id) in Hn. rewrite He in Hn.
  apply in_map_iff in Hn as (m & Hm & Hin). rewrite <- Hm. auto.
Qed.

Lemma idsFrom_create C ns t ti co c u :
  ~ In t C -> idsFrom C ns ->
  idsFrom (t :: C) (mkNote ("note_" ++ ofNumber t) ti co c u :: ns).
Proof.
  intros Ht [Hnd Hf]. split.
  - cbn [map id]. constructor; [|exact Hnd].
    intros Hin. apply in_map_iff in Hin as (m & Hm & Hin).
    destruct (Hf m Hin) as [H|[H|(t' & Ht' & H)]]; rewrite H in Hm.
    + discriminate Hm.
    + discriminate Hm.
    + cbn in Hm. inversion Hm as [Hm']. apply ofNumber_inj in Hm'. congruence.
  - intros n [<-|Hn].
    + right. right. exists t. split; [left; reflexivity | reflexivity].
    + destruct (Hf n Hn) as [H|[H|(t' & Ht' & H)]]; auto.
      right. right. exists t'. split; [right; assumption | assumption].
Qed.

Lemma useMemo_notes_idsFrom C s :
  idsFrom C (notes s) -> idsFrom C (notes (useMemo_notes s)).
Proof.
  unfold useMemo_notes. destruct (truthy (searchTerm s)); cbn [negb]; [trivial|].
  cbn [setNotes notes]. apply idsFrom_perm. symmetry. apply array_sort_perm.
Qed.

Lemma render_cycle_idsFrom C s w :
  idsFrom C (notes s) -> idsFrom C (notes (fst (render_cycle s w))).
Proof.
  intros H. rewrite render_cycle_eq. cbn [fst].
  apply useMemo_notes_idsFrom. rewrite seedEffect_eq.
  destruct (List.length (notes (useMemo_notes s)) =? 0)%nat; cbn [fst].
  - apply idsFrom_seed.
  - apply useMemo_notes_idsFrom. exact H.
Qed.

Lemma handleSaveNote_idsFrom C s w :
  idsFrom C (notes s) ->
  (createsNote SaveNote s = true -> ~ In (clock w (reads w)) C) ->
  idsFrom ((if createsNote SaveNote s then [clock w (reads w)] else []) ++ C)
          (notes (fst (handleSaveNote s w))).
Proof.
  intros H Hfresh. cbn [createsNote] in *.
  destruct (trim (editTitle s)) as [|ch tl] eqn:Et.
  - rewrite (handleSaveNote_reject_eq s w Et). exact H.
  - assert (Ht : trim (editTitle s) <> "") by (rewrite Et; discriminate).
    cbn [truthy andb] in *. destruct (mode s) eqn:Em; cbn [isCreateMode] in *.
    + rewrite (handleSaveNote_idle_eq s w Ht (or_introl Em)). exact H.
    + rewrite (handleSaveNote_create_eq s w Ht Em). cbn [fst notes app].
      apply idsFrom_create; auto.
    + destruct (selectedNote s) as [n|] eqn:Es.
      * rewrite (handleSaveNote_edit_eq s w n Ht Em Es). cbn [fst notes app].
        eapply idsFrom_ids; [apply array_map_saveCallback_ids | exact H].
      * rewrite (handleSaveNote_idle_eq s w Ht (or_intror (conj Em Es))). exact H.
Qed.

Lemma handle_idsFrom C ev s w :
  idsFrom C (notes s) ->
  (createsNote ev s = true -> ~ In (clock w (reads w)) C) ->
  idsFrom ((if createsNote ev s then [clock w (reads w)] else []) ++ C)
          (notes (fst (handle ev s w))).
Proof.
  intros H Hfresh. destruct ev; try exact (handleSaveNote_idsFrom C s w H Hfresh);
    cbn [createsNote app handle].
  - exact H.
  - rewrite handleCreateNoteClick_eq. exact H.
  - unfold handleEditNoteClick. destruct (selectedNote s); exact H.
  - rewrite handleDeleteNoteClick_eq. cbn [fst].
    destruct (answers w (List.length (confirms w))); [|exact H].
    cbn [notes]. apply idsFrom_filter. exact H.
  - exact H.
  - exact H.
  - exact H.
  - exact H.
  - exact H.
  - exact H.
Qed.

Lemma step_idsFrom C ev s w :
  idsFrom C (notes s) ->
  (createsNote ev s = true -> ~ In (clock w (reads w)) C) ->
  idsFrom ((if createsNote ev s then [clock w (reads w)] else []) ++ C)
          (notes (fst (step ev s w))).
Proof.
  intros H Hfresh. unfold step. rewrite bind_ret_eq.
  apply render_cycle_idsFrom, handle_idsFrom; assumption.
Qed.

Lemma run_idsFrom evs : forall s w C,
  idsFrom C (notes s) ->
  NoDup (idReadings evs s w) ->
  (forall t, In t C -> ~ In t (idReadings evs s w)) ->
  idsFrom (rev (idReadings evs s w) ++ C) (notes (fst (run evs s w))).
Proof.
  induction evs as [|ev evs IH]; intros s w C H Hnd Hdisj.
  - exact H.
  - rewrite run_cons. cbn [idReadings] in *.
    set (new := if createsNote ev s then [clock w (reads w)] else []) in *.
    apply NoDup_app_remove_l in Hnd as Hnd'.
    assert (Hstep : idsFrom (new ++ C) (notes (fst (step ev s w)))).
    { apply step_idsFrom; [exact H|]. intros Hc t. subst new. rewrite Hc in Hdisj.
      apply (Hdisj _ t). left. reflexivity. }
    specialize (IH _ (snd (step ev s w)) _ Hstep Hnd').
    eapply idsFrom_mono; [|apply IH].
    + intros t Ht. rewrite !in_app_iff, <- !in_rev in *.
      rewrite in_app_iff. tauto.
    + intros t Ht Hin. apply in_app_or in Ht as [Ht|Ht].
      * subst new. destruct (createsNote ev s); [|destruct Ht].
        destruct Ht as [<-|[]]. cbn [app] in Hnd. inversion Hnd; auto.
      * apply (Hdisj t Ht). apply in_or_app. right. exact Hin.
Qed.

Lemma mount_idsFrom w : idsFrom [] (notes (fst (mount w))).
Proof.
  unfold mount. rewrite bind_ret_eq. apply render_cycle_idsFrom.
  split; [constructor | intros n []].
Qed.

(** The claim of C2 fails when two creates read the same value from the
    clock: both notes get the id built from it. *)
Lemma same_reading_same_id :
  ~ (forall (evs : list Event) (w : World),
       offeredRun evs (fst (mount w)) (snd (mount w)) ->
       NoDup (map id (notes (fst (session evs w))))).
Proof.
  intros H. specialize (H double_create (world_example 5)).
  assert (Hids : map id (notes (fst (session double_create (world_example 5))))
                 = ["note_5"; "note_5"; "note1"; "note2"]) by (vm_compute; reflexivity).
  rewrite Hids in H.
  assert (Hoff : offeredRun double_create (fst (mount (world_example 5)))
                            (snd (mount (world_example 5)))).
  { vm_compute. repeat split; eauto. }
  specialize (H Hoff). inversion H as [|? ? Hni _]; subst.
  apply Hni. left. reflexivity.
Qed.

(** C2, amended: in every state reached from the first render by any
    sequence of events in which the clock readings that creates turn into ids
    are pairwise distinct, the ids of the notes are pairwise distinct, each
    being "note1", "note2" or "note_" followed by one of those readings; and
    a create in that state whose reading differs from the earlier ones
    assigns an id that no note of the collection has. *)
Theorem ids_unique_when_readings_differ (evs : list Event) (w : World) :
  NoDup (idReadings evs (fst (mount w)) (snd (mount w))) ->
  let s := fst (session evs w) in
  let w' := snd (session evs w) in
  NoDup (map id (notes s))
  /\ (forall n, In n (notes s) ->
        id n = "note1" \/ id n = "note2"
        \/ exists t, In t (idReadings evs (fst (mount w)) (snd (mount w)))
                     /\ id n = "note_" ++ ofNumber t)
  /\ (createsNote SaveNote s = true ->
      ~ In (clock w' (reads w')) (idReadings evs (fst (mount w)) (snd (mount w))) ->
      notes (fst (handleSaveNote s w')) = createdNote s w' :: notes s
      /\ ~ In (id (createdNote s w')) (map id (notes s))
      /\ NoDup (map id (notes (fst (handleSaveNote s w'))))).
Proof.
  intros Hnd. cbv zeta. rewrite session_eq.
  pose proof (run_idsFrom evs _ (snd (mount w)) [] (mount_idsFrom w) Hnd
                (fun t (Ht : In t []) => False_ind _ Ht)) as Hinv.
  rewrite app_nil_r in Hinv.
  set (s := fst (run evs (fst (mount w)) (snd (mount w)))) in *.
  set (w' := snd (run evs (fst (mount w)) (snd (mount w)))) in *.
  destruct Hinv as [Hu Hf]. split; [exact Hu|]. split.
  - intros n Hn. destruct (Hf n Hn) as [H|[H|(t & Ht & H)]]; auto.
    right. right. exists t. split; [apply in_rev; exact Ht | exact H].
  - intros Hc Hfresh. cbn [createsNote] in Hc. apply andb_true_iff in Hc as [Ht Hm].
    assert (Ht' : trim (editTitle s) <> "").
    { intros E. rewrite E in Ht. discriminate. }
    assert (Hm' : mode s = create) by (destruct (mode s); try discriminate; reflexivity).
    rewrite (handleSaveNote_create_eq s w' Ht' Hm'). cbn [fst notes].
    assert (Hnew : idsFrom (clock w' (reads w') :: rev (idReadings evs (fst (mount w)) (snd (mount w))))
                           (createdNote s w' :: notes s)).
    { apply idsFrom_create; [|split; assumption].
      intros Hin. apply Hfresh. apply in_rev. exact Hin. }
    destruct Hnew as [Hnd' _]. cbn [map] in Hnd'.
    split; [reflexivity|]. split; [|exact Hnd'].
    inversion Hnd'; assumption.
Qed.

Lemma ids_unique_when_readings_differ_witness :
  NoDup (map id (notes (fst (session create_then_edit ticking_world)))).
Proof.
  destruct (ids_unique_when_readings_differ create_then_edit ticking_world)
    as [Hu _].
  - vm_compute. repeat constructor; cbn; intuition discriminate.
  - exact Hu.
Defined.

(** ** Cancelling *)

Lemma sameButDrafts_eq s1 s2 :
  sameButDrafts s1 s2 ->
  s2 = mkApp (notes s1) (selectedNoteId s1) (sidebarOpen s1) (searchTerm s1) (mode s1)
             (editTitle s2) (editContent s2).
Proof.
  intros (H1 & H2 & H3 & H4 & H5). rewrite H1, H2, H3, H4, H5.
  destruct s2; reflexivity.
Qed.

Lemma draftsUnseen_render s1 s2 : draftsUnseen s1 s2 -> render s1 = render s2.
Proof.
  intros [->|[Hv Hs]]; [reflexivity|].
  rewrite (sameButDrafts_eq s1 s2 Hs). destruct s1 as [ns sel so q m t c].
  cbn in Hv. subst m. unfold render, MainContent, selectedNote. cbn.
  reflexivity.
Qed.

Lemma draftsUnseen_offered s1 s2 ev :
  draftsUnseen s1 s2 -> offered s1 ev -> offered s2 ev.
Proof.
  intros H. pose proof (draftsUnseen_render s1 s2 H) as Hr.
  assert (Hn : filteredNotes (notes s1) (searchTerm s1)
               = filteredNotes (notes s2) (searchTerm s2))
    by exact (f_equal sidebar_notes Hr).
  assert (Hm : MainContent s1 = MainContent s2) by exact (f_equal main_panel Hr).
  destruct ev; cbn [offered]; rewrite <- ?Hn, <- ?Hm; trivial.
Qed.

Lemma view_no_form s : mode s = view -> forall m t c, MainContent s <> NoteForm m t c.
Proof.
  intros Hv m t c. unfold MainContent. rewrite Hv.
  destruct (selectedNote s); discriminate.
Qed.

Lemma useMemo_notes_sameButDrafts s1 s2 :
  sameButDrafts s1 s2 -> sameButDrafts (useMemo_notes s1) (useMemo_notes s2).
Proof.
  intros (H1 & H2 & H3 & H4 & H5). unfold useMemo_notes. rewrite <- H4, <- H1.
  destruct (truthy (searchTerm s1)); repeat split; cbn; assumption || reflexivity.
Qed.

Lemma seedEffect_sameButDrafts s1 s2 w :
  sameButDrafts s1 s2 ->
  sameButDrafts (fst (seedEffect s1 w)) (fst (seedEffect s2 w))
  /\ snd (seedEffect s1 w) = snd (seedEffect s2 w).
Proof.
  intros (H1 & H2 & H3 & H4 & H5). rewrite !seedEffect_eq, <- H1.
  destruct (List.length (notes s1) =? 0)%nat; repeat split; cbn;
    assumption || reflexivity.
Qed.

Lemma render_cycle_sameButDrafts s1 s2 w :
  sameButDrafts s1 s2 ->
  sameButDrafts (fst (render_cycle s1 w)) (fst (render_cycle s2 w))
  /\ snd (render_cycle s1 w) = snd (render_cycle s2 w)
  /\ mode (fst (render_cycle s1 w)) = mode s1.
Proof.
  intros Hs. split; [|split].
  - rewrite !render_cycle_eq. cbn [fst].
    apply useMemo_notes_sameButDrafts, seedEffect_sameButDrafts,
      useMemo_notes_sameButDrafts, Hs.
  - rewrite !render_cycle_eq. cbn [snd].
    apply seedEffect_sameButDrafts, useMemo_notes_sameButDrafts, Hs.
  - rewrite render_cycle_frame. reflexivity.
Qed.

(** An event the page offers keeps the drafts out of sight, and does to the
    browser what it does whatever the drafts are. *)
Lemma step_draftsUnseen ev s1 s2 w :
  draftsUnseen s1 s2 -> offered s1 ev ->
  draftsUnseen (fst (step ev s1 w)) (fst (step ev s2 w))
  /\ snd (step ev s1 w) = snd (step ev s2 w).
Proof.
  intros [->|[Hv Hs]] Hoff; [split; [left|]; reflexivity|].
  assert (Hh : (fst (handle ev s1 w) = fst (handle ev s2 w)
                \/ (mode (fst (handle ev s1 w)) = view
                    /\ sameButDrafts (fst (handle ev s1 w)) (fst (handle ev s2 w))))
               /\ snd (handle ev s1 w) = snd (handle ev s2 w)).
  { rewrite (sameButDrafts_eq s1 s2 Hs). destruct s1 as [ns sel so q m t c].
    cbn [notes selectedNoteId sidebarOpen searchTerm mode] in *. subst m.
    destruct ev; cbn [handle].
    - split; [left|]; reflexivity.
    - unfold handleCreateNoteClick, window_innerWidth. rewrite !bind_ret_eq.
      cbn [fst snd]. destruct (innerWidth w <=? 768); split; try left; reflexivity.
    - unfold handleEditNoteClick, selectedNote.
      cbn [notes selectedNoteId].
      destruct (match sel with
                | Some i => find (fun n => String.eqb (id n) i) ns
                | None => None
                end).
      + split; [left|]; reflexivity.
      + split; [right|]; repeat split; reflexivity.
    - rewrite !handleDeleteNoteClick_eq. cbn [fst snd].
      destruct (answers w (List.length (confirms w)));
        split; try right; repeat split; reflexivity.
    - exfalso. destruct Hoff as (m & t' & c' & Hf).
      revert Hf. apply view_no_form. reflexivity.
    - exfalso. destruct Hoff as (m & t' & c' & Hf).
      revert Hf. apply view_no_form. reflexivity.
    - split; [right|]; repeat split; reflexivity.
    - split; [right|]; repeat split; reflexivity.
    - exfalso. destruct Hoff as (m & t' & c' & Hf).
      revert Hf. apply view_no_form. reflexivity.
    - exfalso. destruct Hoff as (m & t' & c' & Hf).
      revert Hf. apply view_no_form. reflexivity.
    - split; [right|]; repeat split; reflexivity. }
  unfold step. rewrite !bind_ret_eq. destruct Hh as [Hst Hw]. rewrite <- Hw.
  destruct Hst as [He|[Hv' Hs']].
  - rewrite He. split; [left|]; reflexivity.
  - destruct (render_cycle_sameButDrafts _ _ (snd (handle ev s1 w)) Hs')
      as (Hs'' & Hw'' & Hm'').
    split; [right; split|]; [congruence | exact Hs'' | exact Hw''].
Qed.

Lemma run_draftsUnseen evs : forall s1 s2 w,
  draftsUnseen s1 s2 -> offeredRun evs s1 w ->
  offeredRun evs s2 w
  /\ screens evs s1 w = screens evs s2 w
  /\ snd (run evs s1 w) = snd (run evs s2 w)
  /\ draftsUnseen (fst (run evs s1 w)) (fst (run evs s2 w)).
Proof.
  induction evs as [|ev evs IH]; intros s1 s2 w Hd Hoff.
  - cbn. rewrite (draftsUnseen_render s1 s2 Hd). repeat split; trivial.
  - destruct Hoff as [Ho Hoff].
    destruct (step_draftsUnseen ev s1 s2 w Hd Ho) as [Hd' Hw'].
    rewrite !run_cons. cbn [offeredRun screens]. rewrite <- Hw'.
    destruct (IH _ _ (snd (step ev s1 w)) Hd' Hoff) as (H1 & H2 & H3 & H4).
    rewrite (draftsUnseen_render s1 s2 Hd), H2.
    repeat split; trivial. eapply draftsUnseen_offered; eassumption.
Qed.

(** C7: in creating or editing mode a cancel request sets the mode to
    viewing and changes neither the notes nor the selection (nor the
    browser). The drafts are discarded: they are written to no note, and they
    are never seen or used again, since whatever they were at the cancel,
    every later sequence of events the page offers shows the same pages,
    raises the same dialogs and takes the same clock readings. *)
Theorem cancel_discards_drafts (s : AppState) (w : World) :
  mode s = create \/ mode s = edit ->
  let s' := fst (onCancel s w) in
  mode s' = view
  /\ notes s' = notes s
  /\ selectedNoteId s' = selectedNoteId s
  /\ snd (onCancel s w) = w
  /\ (forall (t c : string) (evs : list Event),
        let other := fst (onCancel (setEditContent c (setEditTitle t s)) w) in
        offeredRun evs s' w ->
        offeredRun evs other w
        /\ screens evs s' w = screens evs other w
        /\ snd (run evs s' w) = snd (run evs other w)
        /\ notes (fst (run evs s' w)) = notes (fst (run evs other w))).
Proof.
  intros _. cbv zeta. unfold onCancel, ret. cbn [fst snd].
  split; [reflexivity|]. split; [reflexivity|]. split; [reflexivity|].
  split; [reflexivity|].
  intros t c evs Hoff.
  assert (Hd : draftsUnseen (setMode view s)
                            (setMode view (setEditContent c (setEditTitle t s)))).
  { right. split; [reflexivity|]. repeat split; reflexivity. }
  destruct (run_draftsUnseen evs _ _ w Hd Hoff) as (H1 & H2 & H3 & H4).
  split; [exact H1|]. split; [exact H2|]. split; [exact H3|].
  destruct H4 as [->|[_ (Hn & _)]]; [reflexivity | exact Hn].
Qed.

Lemma cancel_discards_drafts_witness :
  mode (fst (onCancel cancel_example (world_example 5))) = view
  /\ notes (fst (onCancel cancel_example (world_example 5))) = notes cancel_example
  /\ screens after_cancel_events
             (fst (onCancel cancel_example (world_example 5))) (world_example 5)
     = screens after_cancel_events
             (fst (onCancel (setEditContent "" (setEditTitle "" cancel_example))
                            (world_example 5)))
             (world_example 5).
Proof.
  destruct (cancel_discards_drafts cancel_example (world_example 5))
    as (Hm & Hn & _ & _ & Hrun).
  - left. reflexivity.
  - split; [exact Hm|]. split; [exact Hn|].
    destruct (Hrun "" "" after_cancel_events) as (_ & Hscreens & _).
    + vm_compute. repeat split; eauto.
    + exact Hscreens.
Defined.

(** ** The clock and the stamps *)

Lemma later_refl w : later w w.
Proof. split; [reflexivity | lia]. Qed.

Lemma later_trans w1 w2 w3 : later w1 w2 -> later w2 w3 -> later w1 w3.
Proof. intros [H1 H2] [H3 H4]. split; [congruence | lia]. Qed.

Lemma later_tick k w : later w (tick k w).
Proof. split; [reflexivity | cbn; lia]. Qed.

Lemma stampedInPast_later w w' ns :
  later w w' -> stampedInPast w ns -> stampedInPast w' ns.
Proof.
  intros [Hc Hr] H n Hn. destruct (H n Hn) as (k & Hk & E).
  exists k. split; [lia | congruence].
Qed.

Lemma stampedInPast_perm w ns ns' :
  Permutation ns ns' -> stampedInPast w ns -> stampedInPast w ns'.
Proof.
  intros Hp H n Hn. apply H. eapply Permutation_in; [symmetry; exact Hp | exact Hn].
Qed.

Lemma Forall2_In_right {A B} (R : A -> B -> Prop) l l' b :
  Forall2 R l l' -> In b l' -> exists a, In a l /\ R a b.
Proof.
  induction 1 as [|x y l l' Hxy _ IH]; intros Hin; [destruct Hin|].
  destruct Hin as [<-|Hin].
  - exists x. split; [left; reflexivity | assumption].
  - destruct (IH Hin) as (a & Ha & HR). exists a. split; [right|]; assumption.
Qed.

Lemma render_cycle_stamped s w :
  stampedInPast w (notes s) ->
  later w (snd (render_cycle s w))
  /\ stampedInPast (snd (render_cycle s w)) (notes (fst (render_cycle s w))).
Proof.
  intros H.
  assert (Hu : forall s0 w0, stampedInPast w0 (notes s0) ->
                             stampedInPast w0 (notes (useMemo_notes s0))).
  { intros s0 w0. unfold useMemo_notes.
    destruct (truthy (searchTerm s0)); cbn [negb]; [trivial|].
    cbn [setNotes notes]. apply stampedInPast_perm. symmetry. apply array_sort_perm. }
  rewrite render_cycle_eq, seedEffect_eq. cbn [fst snd].
  destruct (List.length (notes (useMemo_notes s)) =? 0)%nat; cbn [fst snd].
  - split; [apply later_tick|]. apply Hu. cbn [setNotes notes].
    intros n [<-|[<-|[]]]; cbn [updatedAt tick reads clock].
    + exists (1 + reads w)%nat. split; [lia | reflexivity].
    + exists (3 + reads w)%nat. split; [lia | reflexivity].
  - split; [apply later_refl|]. apply Hu, Hu, H.
Qed.

Lemma handle_stamped ev s w :
  stampedInPast w (notes s) ->
  later w (snd (handle ev s w))
  /\ stampedInPast (snd (handle ev s w)) (notes (fst (handle ev s w))).
Proof.
  intros H.
  assert (Hsame : forall w', later w w' -> stampedInPast w' (notes s)).
  { intros w' Hl. eapply stampedInPast_later; eassumption. }
  destruct ev; cbn [handle].
  - split; [apply later_refl | exact H].
  - rewrite handleCreateNoteClick_eq. split; [apply later_refl | exact H].
  - unfold handleEditNoteClick. destruct (selectedNote s);
      (split; [apply later_refl | exact H]).
  - rewrite handleDeleteNoteClick_eq. cbn [fst snd].
    assert (Hl : later w (mkWorld (innerWidth w) (clock w) (reads w) (answers w)
                                  (deletePrompt :: confirms w) (alerts w)))
      by (split; [reflexivity | cbn; lia]).
    split; [exact Hl|].
    destruct (answers w (List.length (confirms w))); [|apply Hsame, Hl].
    cbn [notes]. intros n Hn. apply filter_In in Hn as [Hn _].
    apply (Hsame _ Hl). exact Hn.
  - destruct (trim (editTitle s)) as [|ch tl] eqn:Et.
    + rewrite (handleSaveNote_reject_eq s w Et). cbn [fst snd].
      assert (Hl : later w (mkWorld (innerWidth w) (clock w) (reads w) (answers w)
                                    (confirms w)
                                    ("Note title cannot be empty" :: alerts w)))
        by (split; [reflexivity | cbn; lia]).
      split; [exact Hl | apply Hsame, Hl].
    + assert (Ht : trim (editTitle s) <> "") by (rewrite Et; discriminate).
      destruct (mode s) eqn:Em.
      * rewrite (handleSaveNote_idle_eq s w Ht (or_introl Em)).
        split; [apply later_refl | exact H].
      * rewrite (handleSaveNote_create_eq s w Ht Em). cbn [fst snd notes].
        split; [apply later_tick|].
        intros n [<-|Hn].
        -- exists (2 + reads w)%nat. split; [cbn; lia | reflexivity].
        -- apply (Hsame _ (later_tick 3 w)). exact Hn.
      * destruct (selectedNote s) as [sel|] eqn:Es.
        -- rewrite (handleSaveNote_edit_eq s w sel Ht Em Es). cbn [fst snd notes].
           destruct (array_map_saveCallback (id sel) (editTitle s) (editContent s)
                       (notes s) w) as [Hf Hw].
           rewrite Hw. split; [apply later_tick|].
           intros n Hn. destruct (Forall2_In_right _ _ _ _ Hf Hn) as (m & Hm & HR).
           destruct (String.eqb (id m) (id sel)).
           ++ destruct HR as (k & Hk & ->). exists k.
              split; [cbn; lia | reflexivity].
           ++ subst n. apply (Hsame _ (later_tick _ w)). exact Hm.
        -- rewrite (handleSaveNote_idle_eq s w Ht (or_intror (conj Em Es))).
           split; [apply later_refl | exact H].
  - split; [apply later_refl | exact H].
  - split; [apply later_refl | exact H].
  - split; [apply later_refl | exact H].
  - split; [apply later_refl | exact H].
  - split; [apply later_refl | exact H].
  - unfold window_resize, handleResize, window_innerWidth. rewrite !bind_ret_eq.
    cbn [fst snd ret setSidebarOpen notes].
    assert (Hl : later w (mkWorld width (clock w) (reads w) (answers w)
                                  (confirms w) (alerts w)))
      by (split; [reflexivity | cbn; lia]).
    split; [exact Hl | apply Hsame, Hl].
Qed.

Lemma step_stamped ev s w :
  stampedInPast w (notes s) ->
  later w (snd (step ev s w))
  /\ stampedInPast (snd (step ev s w)) (notes (fst (step ev s w))).
Proof.
  intros H. unfold step. rewrite bind_ret_eq.
  destruct (handle_stamped ev s w H) as [Hl Hs].
  destruct (render_cycle_stamped _ _ Hs) as [Hl' Hs'].
  split; [eapply later_trans; eassumption | exact Hs'].
Qed.

Lemma run_stamped evs : forall s w,
  stampedInPast w (notes s) ->
  later w (snd (run evs s w))
  /\ stampedInPast (snd (run evs s w)) (notes (fst (run evs s w))).
Proof.
  induction evs as [|ev evs IH]; intros s w H.
  - split; [apply later_refl | exact H].
  - rewrite run_cons. destruct (step_stamped ev s w H) as [Hl Hs].
    destruct (IH _ _ Hs) as [Hl' Hs'].
    split; [eapply later_trans; eassumption | exact Hs'].
Qed.

(** In every state reached from the first render, every [updatedAt] is a
    reading the clock has already given. *)
Lemma session_stamped evs w :
  later w (snd (session evs w))
  /\ stampedInPast (snd (session evs w)) (notes (fst (session evs w))).
Proof.
  rewrite session_eq.
  assert (H0 : stampedInPast w (notes (initialState (innerWidth w))))
    by (intros n []).
  destruct (render_cycle_stamped _ _ H0) as [Hl Hs].
  assert (Em : mount w = render_cycle (initialState (innerWidth w)) w).
  { unfold mount. rewrite bind_ret_eq. reflexivity. }
  rewrite Em. destruct (run_stamped evs _ _ Hs) as [Hl' Hs'].
  split; [eapply later_trans; eassumption | exact Hs'].
Qed.

(** C5, amended: for every array of notes and every search term the visible
    list is in order of [updatedAt], latest first. A save in creating mode
    puts the new note at the front of the array; it is the first of the
    visible list when its [updatedAt] is not below that of any other note and
    it matches the search term (as every note does when there is none), and
    it is not in the visible list when it does not match. In a state reached
    from the first render under a clock that never runs backwards no note has
    a later [updatedAt], so there the new note is first whenever it
    matches. *)
Theorem visible_list_sorted_new_note_first :
  (forall ns q, StronglySorted recentFirst (filteredNotes ns q))
  /\ (forall s w,
        trim (editTitle s) <> "" -> mode s = create ->
        let s' := fst (handleSaveNote s w) in
        let n := createdNote s w in
        notes s' = n :: notes s
        /\ searchTerm s' = searchTerm s
        /\ selectedNoteId s' = Some (id n)
        /\ ((forall m, In m (notes s) -> updatedAt m <= updatedAt n) ->
            matchesSearch (searchTerm s) n = true ->
            exists rest, filteredNotes (notes s') (searchTerm s') = n :: rest)
        /\ ((forall m, In m (notes s) -> updatedAt m <= updatedAt n) ->
            searchTerm s = "" ->
            filteredNotes (notes s') (searchTerm s')
            = n :: filteredNotes (notes s) (searchTerm s))
        /\ (matchesSearch (searchTerm s) n = false ->
            ~ In n (filteredNotes (notes s') (searchTerm s'))))
  /\ (forall evs w0,
        clockMonotone w0 ->
        let s := fst (session evs w0) in
        let w := snd (session evs w0) in
        trim (editTitle s) <> "" -> mode s = create ->
        matchesSearch (searchTerm s) (createdNote s w) = true ->
        exists rest,
          filteredNotes (notes (fst (handleSaveNote s w)))
                        (searchTerm (fst (handleSaveNote s w)))
          = createdNote s w :: rest).
Proof.
  assert (Hfront : forall s w,
            trim (editTitle s) <> "" -> mode s = create ->
            (forall m, In m (notes s) -> updatedAt m <= updatedAt (createdNote s w)) ->
            matchesSearch (searchTerm s) (createdNote s w) = true ->
            exists rest,
              filteredNotes (notes (fst (handleSaveNote s w)))
                            (searchTerm (fst (handleSaveNote s w)))
              = createdNote s w :: rest).
  { intros s w Ht Hm Hmax Hq. rewrite (handleSaveNote_create_eq s w Ht Hm).
    cbn [fst notes searchTerm]. rewrite filteredNotes_eq. cbn [filter].
    rewrite Hq, array_sort_front.
    - eexists. reflexivity.
    - intros y Hy. apply filter_In in Hy. apply Hmax. tauto. }
  split; [|split].
  - intros ns q. rewrite filteredNotes_eq. apply array_sort_sorted.
  - intros s w Ht Hm. cbv zeta.
    split; [|split; [|split; [|split; [|split]]]];
      try (rewrite (handleSaveNote_create_eq s w Ht Hm); reflexivity).
    + intros Hmax Hq. apply Hfront; assumption.
    + intros Hmax Hq. rewrite (handleSaveNote_create_eq s w Ht Hm).
      cbn [fst notes searchTerm]. rewrite !filteredNotes_eq. cbn [filter].
      rewrite Hq, matchesSearch_empty. apply array_sort_front.
      intros y Hy. apply filter_In in Hy. apply Hmax. tauto.
    + intros Hq. rewrite (handleSaveNote_create_eq s w Ht Hm).
      cbn [fst notes searchTerm]. rewrite filteredNotes_eq. cbn [filter].
      rewrite Hq, array_sort_In, filter_In. intros [_ Hq']. congruence.
  - intros evs w0 Hmono. cbv zeta. intros Ht Hm Hq.
    apply Hfront; try assumption.
    destruct (session_stamped evs w0) as [[Hc Hr] Hs].
    intros m Hin. destruct (Hs m Hin) as (k & Hk & ->).
    cbn [createdNote updatedAt]. rewrite Hc. apply Hmono. lia.
Qed.

Lemma visible_list_sorted_new_note_first_witness :
  (exists rest,
     filteredNotes (notes (fst (handleSaveNote creating_example (world_example 5))))
                   (searchTerm (fst (handleSaveNote creating_example (world_example 5))))
     = mkNote "note_5" "Shopping List" "Milk" 5 5 :: rest)
  /\ (exists rest,
        filteredNotes
          (notes (fst (handleSaveNote (fst (session open_create_form ticking_world))
                                      (snd (session open_create_form ticking_world)))))
          (searchTerm (fst (handleSaveNote (fst (session open_create_form ticking_world))
                                           (snd (session open_create_form ticking_world)))))
        = mkNote "note_1004" "Shopping List" "" 1005 1006 :: rest).
Proof.
  destruct visible_list_sorted_new_note_first as (_ & H & Hreach).
  split.
  - destruct (H creating_example (world_example 5)) as (_ & _ & _ & Hfirst & _).
    + discriminate.
    + reflexivity.
    + apply Hfirst.
      * intros m [<-|[<-|[]]]; cbn; lia.
      * reflexivity.
  - apply (Hreach open_create_form ticking_world).
    + intros i j Hij. unfold ticking_world. cbn [clock]. lia.
    + discriminate.
    + reflexivity.
    + reflexivity.
Defined.

(** With a clock that steps back the new note is stamped before the seeds and
    comes after them. *)
Lemma created_note_behind_when_clock_steps_back :
  map id (filteredNotes
            (notes (fst (session (open_create_form ++ [SaveNote]) stepping_back_world)))
            "")
  = ["note1"; "note2"; "note_5"].
Proof. vm_compute. reflexivity. Qed.

(** * Further properties of the component *)

(** ** The render cycle: seeding and the sort in place *)

Lemma setNotes_same s : setNotes (notes s) s = s.
Proof. destruct s; reflexivity. Qed.

Lemma useMemo_notes_perm s : Permutation (notes (useMemo_notes s)) (notes s).
Proof.
  unfold useMemo_notes. destruct (truthy (searchTerm s)); cbn [negb]; [reflexivity|].
  cbn [setNotes notes]. apply array_sort_perm.
Qed.

Lemma useMemo_notes_searchTerm s : searchTerm (useMemo_notes s) = searchTerm s.
Proof. rewrite useMemo_notes_frame. reflexivity. Qed.

Lemma useMemo_notes_sorted s :
  searchTerm s = "" -> StronglySorted recentFirst (notes (useMemo_notes s)).
Proof.
  intros Hq. unfold useMemo_notes. rewrite Hq. cbn [truthy negb setNotes notes].
  apply array_sort_sorted.
Qed.

Lemma useMemo_notes_fixed s :
  (searchTerm s = "" -> StronglySorted recentFirst (notes s)) -> useMemo_notes s = s.
Proof.
  intros H. unfold useMemo_notes. destruct (searchTerm s) eqn:Hq; cbn [truthy negb].
  - rewrite array_sort_fixed by (apply H; reflexivity). apply setNotes_same.
  - reflexivity.
Qed.

Lemma length_zero_iff_nil {A} (l : list A) : (List.length l =? 0)%nat = true <-> l = [].
Proof. destruct l; cbn; split; congruence. Qed.

Lemma render_cycle_searchTerm s w : searchTerm (fst (render_cycle s w)) = searchTerm s.
Proof. rewrite render_cycle_frame. reflexivity. Qed.

Lemma render_cycle_nonempty s w : notes (fst (render_cycle s w)) <> [].
Proof.
  rewrite render_cycle_eq, seedEffect_eq. cbn [fst].
  intros E. pose proof (useMemo_notes_perm
    (fst (if (List.length (notes (useMemo_notes s)) =? 0)%nat
          then (setNotes (seedNotes (clock w (reads w)) (clock w (1 + reads w))
                                    (clock w (2 + reads w)) (clock w (3 + reads w)))
                         (useMemo_notes s), tick 4 w)
          else (useMemo_notes s, w)))) as Hp.
  rewrite E in Hp. apply Permutation_nil in Hp.
  destruct (List.length (notes (useMemo_notes s)) =? 0)%nat eqn:El; cbn [fst] in Hp.
  - discriminate Hp.
  - apply length_zero_iff_nil in Hp. congruence.
Qed.

Lemma render_cycle_sorted s w :
  searchTerm s = "" -> StronglySorted recentFirst (notes (fst (render_cycle s w))).
Proof.
  intros Hq. rewrite render_cycle_eq. cbn [fst]. apply useMemo_notes_sorted.
  rewrite seedEffect_frame. cbn [setNotes searchTerm].
  rewrite useMemo_notes_searchTerm. exact Hq.
Qed.

Lemma seedEffect_nonempty s w : notes s <> [] -> seedEffect s w = (s, w).
Proof.
  intros Hn. rewrite seedEffect_eq.
  destruct (List.length (notes s) =? 0)%nat eqn:El; [|reflexivity].
  apply length_zero_iff_nil in El. contradiction.
Qed.

Lemma seedEffect_empty s w :
  notes s = [] ->
  seedEffect s w =
    (setNotes (seedNotes (clock w (reads w)) (clock w (1 + reads w))
                         (clock w (2 + reads w)) (clock w (3 + reads w))) s,
     tick 4 w).
Proof. intros Hn. rewrite seedEffect_eq, Hn. reflexivity. Qed.

(** X1: the array of notes is never empty after a render cycle, whatever
    the event and the state before it: when a handler leaves it empty the
    seeding effect reads the clock four times and puts the two sample notes
    back, and otherwise the effect changes nothing and reads no clock. So no
    state reached from the first render has an empty collection. *)
Theorem notes_never_empty :
  (forall ev s w, notes (fst (step ev s w)) <> [])
  /\ (forall evs w, notes (fst (session evs w)) <> [])
  /\ (forall ev s w,
        let h := handle ev s w in
        if (List.length (notes (fst h)) =? 0)%nat
        then Permutation (notes (fst (step ev s w)))
                         (seedNotes (clock (snd h) (reads (snd h)))
                                    (clock (snd h) (1 + reads (snd h)))
                                    (clock (snd h) (2 + reads (snd h)))
                                    (clock (snd h) (3 + reads (snd h))))
             /\ snd (step ev s w) = tick 4 (snd h)
        else Permutation (notes (fst (step ev s w))) (notes (fst h))
             /\ snd (step ev s w) = snd h).
Proof.
  assert (Hstep : forall ev s w, notes (fst (step ev s w)) <> []).
  { intros ev s w. unfold step. rewrite bind_ret_eq. apply render_cycle_nonempty. }
  split; [exact Hstep|]. split.
  - intros evs w. rewrite session_eq.
    assert (Hm : notes (fst (mount w)) <> []).
    { unfold mount. rewrite bind_ret_eq. apply render_cycle_nonempty. }
    revert Hm. generalize (fst (mount w)) (snd (mount w)).
    induction evs as [|ev evs IH]; intros s0 w0 H0; [exact H0|].
    rewrite run_cons. apply IH, Hstep.
  - intros ev s w. cbv zeta. unfold step. rewrite bind_ret_eq.
    set (h := handle ev s w). rewrite render_cycle_eq. cbn [fst snd].
    destruct (List.length (notes (fst h)) =? 0)%nat eqn:El.
    + apply length_zero_iff_nil in El.
      assert (Eu : notes (useMemo_notes (fst h)) = []).
      { apply Permutation_nil. rewrite <- El. symmetry. apply useMemo_notes_perm. }
      rewrite (seedEffect_empty _ _ Eu). cbn [fst snd]. split; [|reflexivity].
      rewrite useMemo_notes_perm. reflexivity.
    + assert (Hn : notes (useMemo_notes (fst h)) <> []).
      { intros Eu. assert (Hp := useMemo_notes_perm (fst h)). rewrite Eu in Hp.
        apply Permutation_nil in Hp. rewrite Hp in El. discriminate. }
      rewrite (seedEffect_nonempty _ _ Hn). cbn [fst snd]. split; [|reflexivity].
      rewrite !useMemo_notes_perm. reflexivity.
Qed.

(** X2: after the renders that follow any event, a state without a search
    term holds its notes in order of recency (the sort of [filteredNotes]
    works on the state array itself), and the sidebar then shows that very
    array. *)
Theorem notes_sorted_in_place (ev : Event) (s : AppState) (w : World) :
  searchTerm (fst (step ev s w)) = "" ->
  StronglySorted recentFirst (notes (fst (step ev s w)))
  /\ sidebar_notes (render (fst (step ev s w))) = notes (fst (step ev s w)).
Proof.
  unfold step. rewrite bind_ret_eq. intros Hq.
  assert (Hs : StronglySorted recentFirst
                 (notes (fst (render_cycle (fst (handle ev s w)) (snd (handle ev s w)))))).
  { apply render_cycle_sorted. rewrite render_cycle_searchTerm in Hq. exact Hq. }
  split; [exact Hs|].
  cbn [render sidebar_notes]. rewrite Hq. unfold filteredNotes. cbn [truthy negb].
  apply array_sort_fixed. exact Hs.
Qed.

Lemma notes_sorted_in_place_witness :
  map id (notes (fst (step SaveNote edit_example (world_example 9))))
  = ["note1"; "note2"]
  /\ StronglySorted recentFirst
       (notes (fst (step SaveNote edit_example (world_example 9)))).
Proof.
  split; [reflexivity|].
  apply (notes_sorted_in_place SaveNote edit_example (world_example 9)).
  reflexivity.
Defined.

(** X3: one render cycle settles the state: a second one right after it
    changes nothing and reads no clock, so the seeding effect and the sort in
    place cannot keep each other going. *)
Theorem render_cycle_settles (s : AppState) (w w' : World) :
  render_cycle (fst (render_cycle s w)) w' = (fst (render_cycle s w), w').
Proof.
  set (s1 := fst (render_cycle s w)).
  assert (Hfix : useMemo_notes s1 = s1).
  { apply useMemo_notes_fixed. intros Hq. subst s1. apply render_cycle_sorted.
    rewrite render_cycle_searchTerm in Hq. exact Hq. }
  rewrite render_cycle_eq, Hfix.
  rewrite (seedEffect_nonempty s1 w' (render_cycle_nonempty s w)).
  cbn [fst snd]. rewrite Hfix. reflexivity.
Qed.

(** ** The sort is the stable one, and commutes with the filter *)

Lemma StronglySorted_filter_keep {A} (R : A -> A -> Prop) (p : A -> bool) l :
  StronglySorted R l -> StronglySorted R (filter p l).
Proof.
  induction 1 as [|x l Hs IH Hx]; cbn; [constructor|].
  destruct (p x); [|exact IH]. constructor; [exact IH|].
  apply Forall_forall. intros y Hy. apply filter_In in Hy as [Hy _].
  rewrite Forall_forall in Hx. auto.
Qed.

Lemma filter_swap {A} (p q : A -> bool) l :
  filter p (filter q l) = filter q (filter p l).
Proof.
  induction l as [|x l IH]; cbn; [reflexivity|].
  destruct (p x) eqn:Ep, (q x) eqn:Eq; cbn; rewrite ?Ep, ?Eq, IH; reflexivity.
Qed.

(** Two arrays in order of recency whose notes of each [updatedAt] come in
    the same order are the same array. *)
Lemma sorted_stable_unique l1 : forall l2,
  StronglySorted recentFirst l1 -> StronglySorted recentFirst l2 ->
  (forall t, filter (fun n => updatedAt n =? t) l1
             = filter (fun n => updatedAt n =? t) l2) ->
  l1 = l2.
Proof.
  induction l1 as [|x l1 IH]; intros l2 H1 H2 Heq.
  - destruct l2 as [|y l2]; [reflexivity|].
    specialize (Heq (updatedAt y)). cbn in Heq. rewrite Z.eqb_refl in Heq. discriminate.
  - destruct l2 as [|y l2].
    + specialize (Heq (updatedAt x)). cbn in Heq. rewrite Z.eqb_refl in Heq. discriminate.
    + inversion H1 as [|? ? H1' Hx]; subst. inversion H2 as [|? ? H2' Hy]; subst.
      rewrite Forall_forall in Hx, Hy.
      assert (Hxy : updatedAt x = updatedAt y).
      { assert (Hin_x : In x (y :: l2)).
        { pose proof (Heq (updatedAt x)) as E. cbn [filter] in E.
          rewrite Z.eqb_refl in E.
          assert (Hi : In x (filter (fun n => updatedAt n =? updatedAt x) (y :: l2))).
          { cbn [filter]. rewrite <- E. left. reflexivity. }
          apply filter_In in Hi. tauto. }
        assert (Hin_y : In y (x :: l1)).
        { pose proof (Heq (updatedAt y)) as E. cbn [filter] in E.
          rewrite (Z.eqb_refl (updatedAt y)) in E.
          assert (Hi : In y (filter (fun n => updatedAt n =? updatedAt y) (x :: l1))).
          { cbn [filter]. rewrite E. left. reflexivity. }
          apply filter_In in Hi. tauto. }
        destruct Hin_x as [Ex|Hin_x]; [subst; reflexivity|].
        destruct Hin_y as [Ey|Hin_y]; [subst; reflexivity|].
        specialize (Hx y Hin_y). specialize (Hy x Hin_x).
        unfold recentFirst in *. lia. }
      assert (Exy : x = y).
      { pose proof (Heq (updatedAt x)) as E. cbn [filter] in E.
        rewrite <- Hxy, Z.eqb_refl in E. inversion E. reflexivity. }
      subst y. f_equal. apply IH; try assumption.
      intros t. specialize (Heq t). cbn [filter] in Heq.
      destruct (updatedAt x =? t); [inversion Heq|]; assumption || reflexivity.
Qed.

(** Filtering the sorted array gives the sorted filtered array. *)
Lemma array_sort_filter (p : Note -> bool) l :
  filter p (array_sort sortByRecent l) = array_sort sortByRecent (filter p l).
Proof.
  apply sorted_stable_unique.
  - apply StronglySorted_filter_keep, array_sort_sorted.
  - apply array_sort_sorted.
  - intros t. rewrite filter_swap, !array_sort_stable. apply filter_swap.
Qed.

(** X4: [array_sort] is the stable sort by recency and nothing else: any
    arrangement that is in order of [updatedAt], latest first, and keeps the
    notes of each single [updatedAt] in the order of the input is the one
    [array_sort] with [sortByRecent] returns; sorting twice is sorting
    once. *)
Theorem array_sort_is_the_stable_sort (l l' : list Note) :
  StronglySorted recentFirst l' ->
  (forall t, filter (fun n => updatedAt n =? t) l'
             = filter (fun n => updatedAt n =? t) l) ->
  l' = array_sort sortByRecent l
  /\ array_sort sortByRecent l' = array_sort sortByRecent l.
Proof.
  intros Hs Hst.
  assert (E : l' = array_sort sortByRecent l).
  { apply sorted_stable_unique; [exact Hs | apply array_sort_sorted|].
    intros t. rewrite array_sort_stable. apply Hst. }
  split; [exact E|]. rewrite <- E. apply array_sort_fixed. exact Hs.
Qed.

Lemma array_sort_is_the_stable_sort_witness :
  [mkNote "b" "newer" "" 2 2; mkNote "a" "older" "" 1 1]
  = array_sort sortByRecent two_notes_oldest_first.
Proof.
  destruct (array_sort_is_the_stable_sort two_notes_oldest_first
              [mkNote "b" "newer" "" 2 2; mkNote "a" "older" "" 1 1])
    as [H _]; [| |exact H].
  - repeat constructor; unfold recentFirst; cbn; lia.
  - intros t. unfold two_notes_oldest_first. cbn [filter updatedAt].
    destruct (2 =? t) eqn:E2, (1 =? t) eqn:E1; try reflexivity.
    apply Z.eqb_eq in E2, E1. lia.
Defined.

(** X5: the visible list is the sorted array with the non-matching notes
    taken out, so it makes no difference to the sidebar whether the state
    array was already sorted in place by an earlier render. *)
Theorem filteredNotes_of_sorted_array (ns : list Note) (q : string) :
  filteredNotes ns q = filter (matchesSearch q) (array_sort sortByRecent ns)
  /\ filteredNotes (array_sort sortByRecent ns) q = filteredNotes ns q
  /\ filteredNotes (filteredNotes ns "") q = filteredNotes ns q.
Proof.
  assert (E1 : filteredNotes ns q = filter (matchesSearch q) (array_sort sortByRecent ns)).
  { rewrite filteredNotes_eq. symmetry. apply array_sort_filter. }
  assert (E2 : filteredNotes (array_sort sortByRecent ns) q = filteredNotes ns q).
  { rewrite !filteredNotes_eq, <- !array_sort_filter.
    rewrite (array_sort_fixed (array_sort sortByRecent ns)) by apply array_sort_sorted.
    reflexivity. }
  split; [exact E1|]. split; [exact E2|].
  rewrite (filteredNotes_eq ns ""), (filter_all _ _ matchesSearch_empty). exact E2.
Qed.

Lemma toLowerCase_idem s : toLowerCase (toLowerCase s) = toLowerCase s.
Proof.
  induction s as [|c s IH]; cbn; [reflexivity|]. rewrite IH. f_equal.
  destruct c as [[] [] [] [] [] [] [] []]; reflexivity.
Qed.

(** X6: the search ignores the case of the query as it ignores the case of
    the notes: two queries that differ in the case of their letters only give
    the same visible list, and a query gives the list its lower-case form
    gives. *)
Theorem search_ignores_query_case (ns : list Note) (q q' : string) :
  (sameIgnoringCase q q' -> filteredNotes ns q = filteredNotes ns q')
  /\ filteredNotes ns (toLowerCase q) = filteredNotes ns q.
Proof.
  assert (H : forall a b, toLowerCase a = toLowerCase b ->
                          filteredNotes ns a = filteredNotes ns b).
  { intros a b E. rewrite !filteredNotes_eq. f_equal.
    apply filter_ext. intros n. unfold matchesSearch. rewrite E. reflexivity. }
  split.
  - intros Hs. apply H, sameIgnoringCase_iff, Hs.
  - apply H, toLowerCase_idem.
Qed.

Lemma search_ignores_query_case_witness :
  filteredNotes (seedNotes 1 1 1 1) "FEATURES" = filteredNotes (seedNotes 1 1 1 1) "features".
Proof.
  destruct (search_ignores_query_case (seedNotes 1 1 1 1) "FEATURES" "features")
    as [H _].
  apply H. repeat constructor.
Defined.

Lemma string_app_assoc (a b c : string) : (a ++ b) ++ c = a ++ b ++ c.
Proof. induction a as [|x a IH]; cbn; [reflexivity | rewrite IH; reflexivity]. Qed.

Lemma containsIgnoringCase_trans s q' q :
  containsIgnoringCase s q' -> containsIgnoringCase q' q -> containsIgnoringCase s q.
Proof.
  rewrite <- !includes_toLowerCase_spec, !includes_spec.
  intros (a & b & E) (a' & b' & E'). rewrite E' in E.
  exists (a ++ a'), (b' ++ b). rewrite E.
  rewrite !string_app_assoc. reflexivity.
Qed.

(** X7: a longer query only narrows the list: when the query [q] occurs
    (up to case) inside the query [q'], the list for [q'] is the list for [q]
    with the notes that do not match [q'] taken out, in the same order. So
    typing more into the search box never brings a note back. *)
Theorem longer_query_narrows (ns : list Note) (q q' : string) :
  containsIgnoringCase q' q ->
  filteredNotes ns q' = filter (matchesSearch q') (filteredNotes ns q)
  /\ incl (filteredNotes ns q') (filteredNotes ns q)
  /\ (List.length (filteredNotes ns q') <= List.length (filteredNotes ns q))%nat.
Proof.
  intros Hc.
  assert (Himp : forall n, matchesSearch q' n = true -> matchesSearch q n = true).
  { intros n. rewrite !matchesSearch_spec.
    intros [H|H]; [left|right]; eapply containsIgnoringCase_trans; eassumption. }
  assert (E : filteredNotes ns q' = filter (matchesSearch q') (filteredNotes ns q)).
  { rewrite !filteredNotes_eq, <- !array_sort_filter.
    generalize (array_sort sortByRecent ns) as l. intros l.
    induction l as [|n l IH]; cbn [filter]; [reflexivity|].
    destruct (matchesSearch q' n) eqn:E'.
    - rewrite (Himp n E'). cbn [filter]. rewrite E', IH. reflexivity.
    - destruct (matchesSearch q n); cbn [filter]; rewrite ?E'; exact IH. }
  split; [exact E|]. split.
  - rewrite E. intros n Hn. apply filter_In in Hn. tauto.
  - rewrite E. apply filter_length_le.
Qed.

Lemma longer_query_narrows_witness :
  incl (filteredNotes (seedNotes 1 1 1 1) "Features")
       (filteredNotes (seedNotes 1 1 1 1) "feat").
Proof.
  destruct (longer_query_narrows (seedNotes 1 1 1 1) "feat" "Features")
    as (_ & H & _).
  - exists "", "Feat", "ures". split; [reflexivity | repeat constructor].
  - exact H.
Defined.

(** ** What holds in every state of a session *)

Lemma mount_eq w : mount w = render_cycle (initialState (innerWidth w)) w.
Proof. unfold mount. rewrite bind_ret_eq. reflexivity. Qed.

Lemma step_eq ev s w :
  step ev s w = render_cycle (fst (handle ev s w)) (snd (handle ev s w)).
Proof. unfold step. apply bind_ret_eq. Qed.

(** Induction over a session: what the first render establishes and every
    event keeps holds at the end. *)
Lemma session_invariant (Inv : AppState -> World -> Prop) :
  (forall w, Inv (fst (mount w)) (snd (mount w))) ->
  (forall ev s w, Inv s w -> Inv (fst (step ev s w)) (snd (step ev s w))) ->
  forall evs w, Inv (fst (session evs w)) (snd (session evs w)).
Proof.
  intros H0 Hstep evs w. rewrite session_eq.
  generalize (H0 w). generalize (fst (mount w)) (snd (mount w)).
  induction evs as [|ev evs IH]; intros s0 w0 Hi; [exact Hi|].
  rewrite run_cons. apply IH, Hstep, Hi.
Qed.

(** The same for sessions made of events the page offers. *)
Lemma offered_session_invariant (Inv : AppState -> World -> Prop) :
  (forall w, Inv (fst (mount w)) (snd (mount w))) ->
  (forall ev s w, Inv s w -> offered s ev ->
                  Inv (fst (step ev s w)) (snd (step ev s w))) ->
  forall evs w, offeredRun evs (fst (mount w)) (snd (mount w)) ->
                Inv (fst (session evs w)) (snd (session evs w)).
Proof.
  intros H0 Hstep evs w. rewrite session_eq.
  generalize (H0 w). generalize (fst (mount w)) (snd (mount w)).
  induction evs as [|ev evs IH]; intros s0 w0 Hi Hoff; [exact Hi|].
  destruct Hoff as [Ho Hoff]. rewrite run_cons. apply IH; [|exact Hoff].
  apply Hstep; assumption.
Qed.

(** How a handler leaves the array of notes: as it was, filtered by a
    confirmed delete, extended by a create, or mapped by an edit. *)
Lemma handle_notes_cases ev s w :
  notes (fst (handle ev s w)) = notes s
  \/ (exists x, ev = DeleteNoteClick x
        /\ notes (fst (handle ev s w))
           = filter (fun n => negb (String.eqb (id n) x)) (notes s))
  \/ (ev = SaveNote /\ trim (editTitle s) <> "" /\ mode s = create
        /\ notes (fst (handle ev s w)) = createdNote s w :: notes s
        /\ snd (handle ev s w) = tick 3 w)
  \/ (ev = SaveNote /\ trim (editTitle s) <> "" /\ mode s = edit
        /\ exists sel, selectedNote s = Some sel
             /\ notes (fst (handle ev s w))
                = fst (array_map (saveCallback (id sel) (editTitle s) (editContent s))
                                 (notes s) w)
             /\ snd (handle ev s w) = tick (occurrences (id sel) (notes s)) w).
Proof.
  destruct ev; cbn [handle]; try (left; reflexivity).
  - left. rewrite handleCreateNoteClick_eq. reflexivity.
  - left. unfold handleEditNoteClick. destruct (selectedNote s); reflexivity.
  - rewrite handleDeleteNoteClick_eq. cbn [fst].
    destruct (answers w (List.length (confirms w))); [|left; reflexivity].
    right. left. exists noteId. split; reflexivity.
  - destruct (trim (editTitle s)) as [|ch tl] eqn:Et.
    + left. rewrite (handleSaveNote_reject_eq s w Et). reflexivity.
    + assert (Ht : trim (editTitle s) <> "") by (rewrite Et; discriminate).
      rewrite <- Et. destruct (mode s) eqn:Em.
      * left. rewrite (handleSaveNote_idle_eq s w Ht (or_introl Em)). reflexivity.
      * right. right. left. rewrite (handleSaveNote_create_eq s w Ht Em).
        repeat split; assumption || reflexivity.
      * destruct (selectedNote s) as [sel|] eqn:Es.
        -- right. right. right. rewrite (handleSaveNote_edit_eq s w sel Ht Em Es).
           repeat split; try assumption. exists sel. cbn [fst snd notes].
           split; [reflexivity|]. split; [reflexivity|].
           apply (array_map_saveCallback (id sel) (editTitle s) (editContent s)).
        -- left. rewrite (handleSaveNote_idle_eq s w Ht (or_intror (conj Em Es))).
           reflexivity.
Qed.

Lemma saveCallback_result selId t c l w n' :
  In n' (fst (array_map (saveCallback selId t c) l w)) ->
  In n' l
  \/ exists m k, In m l /\ (reads w <= k < reads w + occurrences selId l)%nat
                 /\ n' = spread_update m t c (clock w k).
Proof.
  intros Hin. destruct (array_map_saveCallback selId t c l w) as [Hf _].
  destruct (Forall2_In_right _ _ _ _ Hf Hin) as (m & Hm & HR).
  destruct (String.eqb (id m) selId).
  - destruct HR as (k & Hk & ->). right. exists m, k. auto.
  - subst n'. left. exact Hm.
Qed.

Lemma render_cycle_notes_cases s w :
  (notes s <> [] /\ Permutation (notes (fst (render_cycle s w))) (notes s)
   /\ snd (render_cycle s w) = w)
  \/ (notes s = []
      /\ Permutation (notes (fst (render_cycle s w)))
                     (seedNotes (clock w (reads w)) (clock w (1 + reads w))
                                (clock w (2 + reads w)) (clock w (3 + reads w)))
      /\ snd (render_cycle s w) = tick 4 w).
Proof.
  rewrite render_cycle_eq. cbn [fst snd].
  destruct (notes s) as [|n0 ns0] eqn:En.
  - right. split; [reflexivity|].
    assert (Eu : notes (useMemo_notes s) = []).
    { apply Permutation_nil. rewrite <- En. symmetry. apply useMemo_notes_perm. }
    rewrite (seedEffect_empty _ _ Eu). cbn [fst snd]. split; [|reflexivity].
    rewrite useMemo_notes_perm. reflexivity.
  - left. split; [discriminate|].
    assert (Hn : notes (useMemo_notes s) <> []).
    { intros Eu. assert (Hp := useMemo_notes_perm s). rewrite Eu, En in Hp.
      apply Permutation_nil in Hp. discriminate. }
    rewrite (seedEffect_nonempty _ _ Hn). cbn [fst snd]. split; [|reflexivity].
    rewrite !useMemo_notes_perm, En. reflexivity.
Qed.

Lemma seed_titles_not_blank c1 u1 c2 u2 : titlesNotBlank (seedNotes c1 u1 c2 u2).
Proof. intros n [<-|[<-|[]]]; cbn; discriminate. Qed.

(** X8: no note ever has a blank title. In every state of a session each
    title of the collection has a non-empty trimmed form: the seeds have one,
    and [handleSaveNote] stores a title only after the test on its trimmed
    form (it stores the title as typed, spaces around it included). *)
Theorem titles_never_blank (evs : list Event) (w : World) :
  titlesNotBlank (notes (fst (session evs w))).
Proof.
  apply (session_invariant (fun s _ => titlesNotBlank (notes s))).
  - intros w0. rewrite mount_eq.
    destruct (render_cycle_notes_cases (initialState (innerWidth w0)) w0)
      as [(Hn & _) | (_ & Hp & _)]; [exfalso; apply Hn; reflexivity|].
    intros n Hn. apply (Permutation_in _ Hp) in Hn.
    revert n Hn. apply seed_titles_not_blank.
  - intros ev s w0 Hinv. rewrite step_eq.
    assert (Hh : titlesNotBlank (notes (fst (handle ev s w0)))).
    { destruct (handle_notes_cases ev s w0)
        as [E | [(x & _ & E) | [(_ & Ht & _ & E & _) | (_ & Ht & _ & sel & _ & E & _)]]];
        rewrite E.
      - exact Hinv.
      - intros n Hn. apply filter_In in Hn as [Hn _]. auto.
      - intros n [<-|Hn]; [exact Ht | auto].
      - intros n Hn. apply saveCallback_result in Hn as [Hn | (m & k & _ & _ & ->)];
          [auto | exact Ht]. }
    destruct (render_cycle_notes_cases (fst (handle ev s w0)) (snd (handle ev s w0)))
      as [(_ & Hp & _) | (_ & Hp & _)];
      intros n Hn; apply (Permutation_in _ Hp) in Hn.
    + auto.
    + revert n Hn. apply seed_titles_not_blank.
Qed.

Lemma find_id_In i ns :
  In i (map id ns) ->
  exists n, find (fun n => String.eqb (id n) i) ns = Some n /\ id n = i /\ In n ns.
Proof.
  induction ns as [|m ns IH]; cbn [map find]; intros Hin; [destruct Hin|].
  destruct (String.eqb (id m) i) eqn:E.
  - apply String.eqb_eq in E. exists m. repeat split; [exact E | left; reflexivity].
  - apply String.eqb_neq in E. destruct Hin as [Hin|Hin]; [contradiction|].
    destruct (IH Hin) as (n & Hf & Hi & Hn). exists n. repeat split; auto.
    right. exact Hn.
Qed.

Lemma filteredNotes_In n ns q : In n (filteredNotes ns q) -> In n ns.
Proof.
  rewrite filteredNotes_eq, array_sort_In, filter_In. tauto.
Qed.

Lemma render_cycle_mode_selection s w :
  mode (fst (render_cycle s w)) = mode s
  /\ selectedNoteId (fst (render_cycle s w)) = selectedNoteId s
  /\ editTitle (fst (render_cycle s w)) = editTitle s
  /\ editContent (fst (render_cycle s w)) = editContent s
  /\ sidebarOpen (fst (render_cycle s w)) = sidebarOpen s.
Proof. rewrite render_cycle_frame. repeat split; reflexivity. Qed.

Lemma render_cycle_selectionLive s w :
  selectionLive s -> selectionLive (fst (render_cycle s w)).
Proof.
  intros H i Hi.
  destruct (render_cycle_mode_selection s w) as (_ & Hsel & _).
  rewrite Hsel in Hi. specialize (H i Hi).
  destruct (render_cycle_notes_cases s w) as [(_ & Hp & _) | (En & _)].
  - eapply Permutation_in; [|exact H]. apply Permutation_map. symmetry. exact Hp.
  - rewrite En in H. destruct H.
Qed.

Lemma handle_selection_kept ev s w :
  selectionLive s -> editHasSelection s -> offered s ev ->
  selectionLive (fst (handle ev s w)) /\ editHasSelection (fst (handle ev s w)).
Proof.
  intros Hl He Ho. unfold selectionLive, editHasSelection in *.
  destruct ev; cbn [handle].
  - cbn [offered] in Ho. apply filteredNotes_In in Ho.
    unfold handleSelectNote, ret. cbn. split; [|discriminate].
    intros i Hi. inversion Hi; subst. apply in_map. exact Ho.
  - rewrite handleCreateNoteClick_eq. cbn. split; discriminate.
  - unfold handleEditNoteClick, ret. destruct (selectedNote s) as [sel|] eqn:Es.
    + cbn. split; [exact Hl|]. intros _.
      apply selectedNote_Some in Es as [_ Es]. rewrite Es. discriminate.
    + split; assumption.
  - rewrite handleDeleteNoteClick_eq. cbn [fst].
    destruct (answers w (List.length (confirms w))); [|split; assumption].
    cbn. split; discriminate.
  - destruct (trim (editTitle s)) as [|ch tl] eqn:Et.
    + rewrite (handleSaveNote_reject_eq s w Et). split; assumption.
    + assert (Ht : trim (editTitle s) <> "") by (rewrite Et; discriminate).
      destruct (mode s) eqn:Em.
      * rewrite (handleSaveNote_idle_eq s w Ht (or_introl Em)). cbn.
        split; [exact Hl | discriminate].
      * rewrite (handleSaveNote_create_eq s w Ht Em). cbn [fst notes selectedNoteId mode].
        split; [|discriminate]. intros i Hi. inversion Hi; subst. left. reflexivity.
      * destruct (selectedNote s) as [sel|] eqn:Es.
        -- rewrite (handleSaveNote_edit_eq s w sel Ht Em Es).
           cbn [fst notes selectedNoteId mode]. split; [|discriminate].
           intros i Hi. inversion Hi; subst.
           rewrite array_map_saveCallback_ids. apply in_map.
           apply (selectedNote_Some s sel Es).
        -- rewrite (handleSaveNote_idle_eq s w Ht (or_intror (conj Em Es))). cbn.
           split; [exact Hl | discriminate].
  - unfold onCancel, ret. cbn. split; [exact Hl | discriminate].
  - unfold handleSidebarToggle, ret. cbn. split; assumption.
  - unfold handleSearchChange, ret. cbn. split; assumption.
  - unfold ret. cbn. split; assumption.
  - unfold ret. cbn. split; assumption.
  - unfold window_resize, handleResize, window_innerWidth. rewrite !bind_ret_eq.
    cbn. split; assumption.
Qed.

(** X9: the selection never dangles. In every state reached from the first
    render by events the page offers, a selected id is the id of a note of
    the collection, so [selectedNote] finds one; and editing mode always has
    such a note, so the edit form is on the page whenever the mode is
    editing. *)
Theorem selection_never_dangles (evs : list Event) (w : World) :
  offeredRun evs (fst (mount w)) (snd (mount w)) ->
  let s := fst (session evs w) in
  (forall i, selectedNoteId s = Some i ->
             exists n, selectedNote s = Some n /\ id n = i /\ In n (notes s))
  /\ (mode s = edit ->
      exists n, selectedNote s = Some n
                /\ MainContent s = NoteForm edit (editTitle s) (editContent s)).
Proof.
  intros Hoff. cbv zeta.
  assert (Hinv : selectionLive (fst (session evs w))
                 /\ editHasSelection (fst (session evs w))).
  { revert Hoff.
    apply (offered_session_invariant (fun s _ => selectionLive s /\ editHasSelection s)).
    - intros w0. rewrite mount_eq.
      destruct (render_cycle_mode_selection (initialState (innerWidth w0)) w0)
        as (Hm & Hsel & _).
      split.
      + intros i Hi. rewrite Hsel in Hi. discriminate Hi.
      + intros He. rewrite Hm in He. discriminate He.
    - intros ev s w0 [Hl He] Ho. rewrite step_eq.
      destruct (handle_selection_kept ev s w0 Hl He Ho) as [Hl' He'].
      split; [apply render_cycle_selectionLive; exact Hl'|].
      destruct (render_cycle_mode_selection (fst (handle ev s w0)) (snd (handle ev s w0)))
        as (Hm & Hsel & _).
      intros Hmode. rewrite Hsel. apply He'. rewrite <- Hm. exact Hmode. }
  destruct Hinv as [Hl He].
  set (s := fst (session evs w)) in *.
  assert (Hfind : forall i, selectedNoteId s = Some i ->
                    exists n, selectedNote s = Some n /\ id n = i /\ In n (notes s)).
  { intros i Hi. unfold selectedNote. rewrite Hi. apply find_id_In, Hl, Hi. }
  split; [exact Hfind|].
  intros Hm. destruct (selectedNoteId s) as [i|] eqn:Hi; [|exfalso; apply (He Hm Hi)].
  destruct (Hfind i eq_refl) as (n & Hn & _). exists n. split; [exact Hn|].
  unfold MainContent. rewrite Hm, Hn. reflexivity.
Qed.

Lemma selection_never_dangles_witness :
  exists n, selectedNote (fst (session (create_then_edit ++ [EditNoteClick]) ticking_world))
            = Some n /\ id n = "note_1008".
Proof.
  destruct (selection_never_dangles (create_then_edit ++ [EditNoteClick]) ticking_world)
    as [Hsel _].
  - vm_compute. repeat split; eauto.
  - destruct (Hsel "note_1008" eq_refl) as (n & Hn & Hi & _).
    exists n. split; assumption.
Defined.

Lemma handle_later ev s w : later w (snd (handle ev s w)).
Proof.
  destruct ev; cbn [handle]; try apply later_refl.
  - rewrite handleCreateNoteClick_eq. apply later_refl.
  - unfold handleEditNoteClick. destruct (selectedNote s); apply later_refl.
  - rewrite handleDeleteNoteClick_eq. split; [reflexivity | cbn; lia].
  - destruct (trim (editTitle s)) as [|ch tl] eqn:Et.
    + rewrite (handleSaveNote_reject_eq s w Et). split; [reflexivity | cbn; lia].
    + assert (Ht : trim (editTitle s) <> "") by (rewrite Et; discriminate).
      destruct (mode s) eqn:Em.
      * rewrite (handleSaveNote_idle_eq s w Ht (or_introl Em)). apply later_refl.
      * rewrite (handleSaveNote_create_eq s w Ht Em). apply later_tick.
      * destruct (selectedNote s) as [sel|] eqn:Es.
        -- rewrite (handleSaveNote_edit_eq s w sel Ht Em Es). cbn [snd].
           destruct (array_map_saveCallback (id sel) (editTitle s) (editContent s)
                       (notes s) w) as [_ Hw].
           rewrite Hw. apply later_tick.
        -- rewrite (handleSaveNote_idle_eq s w Ht (or_intror (conj Em Es))).
           apply later_refl.
  - unfold window_resize, handleResize, window_innerWidth. rewrite !bind_ret_eq.
    split; [reflexivity | cbn; lia].
Qed.

Lemma stampedInOrder_later w w' ns :
  later w w' -> stampedInOrder w ns -> stampedInOrder w' ns.
Proof.
  intros [Hc Hr] H n Hn. destruct (H n Hn) as (i & k & Hik & Ei & Ek).
  exists i, k. rewrite Hc. repeat split; try assumption; lia.
Qed.

Lemma stampedInOrder_perm w ns ns' :
  Permutation ns' ns -> stampedInOrder w ns -> stampedInOrder w ns'.
Proof. intros Hp H n Hn. apply H. eapply Permutation_in; eassumption. Qed.

Lemma stampedInOrder_seed w :
  stampedInOrder (tick 4 w)
    (seedNotes (clock w (reads w)) (clock w (1 + reads w))
               (clock w (2 + reads w)) (clock w (3 + reads w))).
Proof.
  intros n [<-|[<-|[]]]; cbn [createdAt updatedAt tick reads clock].
  - exists (reads w), (1 + reads w)%nat. repeat split; lia.
  - exists (2 + reads w)%nat, (3 + reads w)%nat. repeat split; lia.
Qed.

Lemma render_cycle_stampedInOrder s w :
  stampedInOrder w (notes s) ->
  stampedInOrder (snd (render_cycle s w)) (notes (fst (render_cycle s w))).
Proof.
  intros H.
  destruct (render_cycle_notes_cases s w) as [(_ & Hp & Hw) | (_ & Hp & Hw)];
    rewrite Hw; eapply stampedInOrder_perm; try exact Hp.
  - exact H.
  - apply stampedInOrder_seed.
Qed.

Lemma handle_stampedInOrder ev s w :
  stampedInOrder w (notes s) ->
  stampedInOrder (snd (handle ev s w)) (notes (fst (handle ev s w))).
Proof.
  intros H.
  assert (Hold : stampedInOrder (snd (handle ev s w)) (notes s)).
  { eapply stampedInOrder_later; [apply handle_later | exact H]. }
  destruct (handle_notes_cases ev s w)
    as [E | [(x & _ & E) | [(_ & _ & _ & E & Ew) | (_ & _ & _ & sel & _ & E & Ew)]]];
    rewrite E.
  - exact Hold.
  - intros n Hn. apply filter_In in Hn as [Hn _]. auto.
  - intros n [<-|Hn]; [|auto]. rewrite Ew.
    exists (1 + reads w)%nat, (2 + reads w)%nat.
    cbn [createdNote createdAt updatedAt tick reads clock]. repeat split; lia.
  - intros n Hn. apply saveCallback_result in Hn as [Hn | (m & k & Hm & Hk & ->)];
      [auto|].
    destruct (H m Hm) as (i & k0 & Hik & Ei & _). rewrite Ew.
    exists i, k. cbn [spread_update createdAt updatedAt tick reads clock].
    repeat split; try assumption; lia.
Qed.

(** X10: no note is updated before it was created. In every state of a
    session both stamps of a note are clock readings already taken, the one
    for [createdAt] taken no later than the one for [updatedAt]; so under a
    clock that never runs backwards [createdAt] is at most [updatedAt] for
    every note. *)
Theorem created_before_updated (evs : list Event) (w : World) :
  clockMonotone w ->
  forall n, In n (notes (fst (session evs w))) -> createdAt n <= updatedAt n.
Proof.
  intros Hmono n Hn.
  assert (Hs : stampedInOrder (snd (session evs w)) (notes (fst (session evs w)))).
  { apply (session_invariant (fun s w' => stampedInOrder w' (notes s))).
    - intros w0. rewrite mount_eq. apply render_cycle_stampedInOrder.
      intros m [].
    - intros ev s w0 Hi. rewrite step_eq.
      apply render_cycle_stampedInOrder, handle_stampedInOrder, Hi. }
  destruct (session_stamped evs w) as [[Hc _] _].
  destruct (Hs n Hn) as (i & k & Hik & -> & ->).
  rewrite Hc. apply Hmono. lia.
Qed.

Lemma created_before_updated_witness :
  Forall (fun n => createdAt n <= updatedAt n)
         (notes (fst (session create_then_edit ticking_world))).
Proof.
  apply Forall_forall.
  apply (created_before_updated create_then_edit ticking_world).
  intros i j Hij. unfold ticking_world. cbn [clock]. lia.
Defined.

(** ** Dialogs *)

Lemma handle_dialogs ev s w :
  confirms (snd (handle ev s w))
  = ((match ev with DeleteNoteClick _ => [deletePrompt] | _ => [] end)
     ++ confirms w)%list
  /\ alerts (snd (handle ev s w))
     = ((if rejectsSave ev s then [emptyTitleAlert] else []) ++ alerts w)%list.
Proof.
  destruct ev; cbn [handle rejectsSave]; try (split; reflexivity).
  - rewrite handleCreateNoteClick_eq. split; reflexivity.
  - unfold handleEditNoteClick. destruct (selectedNote s); split; reflexivity.
  - rewrite handleDeleteNoteClick_eq. split; reflexivity.
  - destruct (trim (editTitle s)) as [|ch tl] eqn:Et.
    + rewrite (handleSaveNote_reject_eq s w Et). split; reflexivity.
    + assert (Ht : trim (editTitle s) <> "") by (rewrite Et; discriminate).
      cbn [truthy negb app]. destruct (mode s) eqn:Em.
      * rewrite (handleSaveNote_idle_eq s w Ht (or_introl Em)). split; reflexivity.
      * rewrite (handleSaveNote_create_eq s w Ht Em). split; reflexivity.
      * destruct (selectedNote s) as [sel|] eqn:Es.
        -- rewrite (handleSaveNote_edit_eq s w sel Ht Em Es). cbn [snd].
           destruct (array_map_saveCallback (id sel) (editTitle s) (editContent s)
                       (notes s) w) as [_ Hw].
           rewrite Hw. split; reflexivity.
        -- rewrite (handleSaveNote_idle_eq s w Ht (or_intror (conj Em Es))).
           split; reflexivity.
Qed.

Lemma render_cycle_dialogs s w :
  confirms (snd (render_cycle s w)) = confirms w
  /\ alerts (snd (render_cycle s w)) = alerts w.
Proof.
  destruct (render_cycle_notes_cases s w) as [(_ & _ & Hw) | (_ & _ & Hw)];
    rewrite Hw; split; reflexivity.
Qed.

Lemma repeat_snoc {A} (x : A) k l :
  (repeat x k ++ x :: l = x :: repeat x k ++ l)%list.
Proof. induction k as [|k IH]; cbn; [reflexivity | rewrite IH; reflexivity]. Qed.

(** X11: the dialogs of a run are these and no others: one confirm prompt,
    the one asking to delete this note, for every click on Delete (whatever
    the answer), and one alert, the one about the empty title, for every save
    whose title is blank. Rendering and the first render raise none. *)
Theorem dialogs_of_a_run (evs : list Event) (s : AppState) (w : World) :
  confirms (snd (run evs s w))
  = (repeat deletePrompt (countDeletes evs) ++ confirms w)%list
  /\ alerts (snd (run evs s w))
     = (repeat emptyTitleAlert (rejectedSaves evs s w) ++ alerts w)%list
  /\ (rejectedSaves evs s w <= countSaves evs)%nat
  /\ confirms (snd (mount w)) = confirms w
  /\ alerts (snd (mount w)) = alerts w.
Proof.
  split; [|split; [|split]].
  - revert s w. induction evs as [|ev evs IH]; intros s w; [reflexivity|].
    assert (Ec : confirms (snd (step ev s w))
                 = ((match ev with DeleteNoteClick _ => [deletePrompt] | _ => [] end)
                    ++ confirms w)%list).
    { rewrite step_eq.
      destruct (render_cycle_dialogs (fst (handle ev s w)) (snd (handle ev s w)))
        as [Hc _].
      rewrite Hc. apply handle_dialogs. }
    rewrite run_cons, IH, Ec.
    unfold countDeletes. cbn [filter].
    destruct ev; cbn [app List.length repeat]; try reflexivity.
    apply repeat_snoc.
  - revert s w. induction evs as [|ev evs IH]; intros s w; [reflexivity|].
    assert (Ea : alerts (snd (step ev s w))
                 = ((if rejectsSave ev s then [emptyTitleAlert] else []) ++ alerts w)%list).
    { rewrite step_eq.
      destruct (render_cycle_dialogs (fst (handle ev s w)) (snd (handle ev s w)))
        as [_ Ha].
      rewrite Ha. apply handle_dialogs. }
    rewrite run_cons, IH, Ea. cbn [rejectedSaves].
    destruct (rejectsSave ev s); cbn [app Nat.add repeat]; [|reflexivity].
    apply repeat_snoc.
  - revert s w. induction evs as [|ev evs IH]; intros s w; [cbn; lia|].
    cbn [rejectedSaves]. specialize (IH (fst (step ev s w)) (snd (step ev s w))).
    unfold countSaves in *. cbn [filter].
    destruct ev; cbn [rejectsSave List.length]; try lia.
    destruct (negb (truthy (trim (editTitle s)))); lia.
  - rewrite mount_eq. apply render_cycle_dialogs.
Qed.

(** ** Selecting, editing, cancelling and deleting, one after the other *)

Lemma NoDup_ids_eq ns n m :
  NoDup (map id ns) -> In n ns -> In m ns -> id n = id m -> n = m.
Proof.
  induction ns as [|a l IH]; intros Hnd Hn Hm E; [destruct Hn|].
  cbn [map] in Hnd. inversion Hnd as [|? ? Hni Hnd']; subst.
  destruct Hn as [<-|Hn], Hm as [<-|Hm]; try reflexivity.
  - exfalso. apply Hni. rewrite E. apply in_map. assumption.
  - exfalso. apply Hni. rewrite <- E. apply in_map. assumption.
  - apply IH; assumption.
Qed.

Lemma find_id_NoDup ns n :
  NoDup (map id ns) -> In n ns ->
  find (fun m => String.eqb (id m) (id n)) ns = Some n.
Proof.
  intros Hnd Hn.
  destruct (find_id_In (id n) ns (in_map id _ _ Hn)) as (m & Hf & Hi & Hm).
  rewrite Hf. f_equal. eapply NoDup_ids_eq; eassumption.
Qed.

Lemma find_id_None i ns :
  ~ In i (map id ns) -> find (fun m => String.eqb (id m) i) ns = None.
Proof.
  intros Hn. destruct (find (fun m => String.eqb (id m) i) ns) as [m|] eqn:Hf;
    [|reflexivity].
  apply find_some in Hf as [Hin He]. apply String.eqb_eq in He.
  exfalso. apply Hn. rewrite <- He. apply in_map. exact Hin.
Qed.

Lemma find_id_perm i ns ns' :
  Permutation ns ns' -> NoDup (map id ns) ->
  find (fun m => String.eqb (id m) i) ns = find (fun m => String.eqb (id m) i) ns'.
Proof.
  intros Hp Hnd.
  assert (Hnd' : NoDup (map id ns')).
  { eapply Permutation_NoDup; [apply Permutation_map; exact Hp | exact Hnd]. }
  destruct (find (fun m => String.eqb (id m) i) ns) as [n|] eqn:Hf.
  - apply find_some in Hf as [Hin He]. apply String.eqb_eq in He. subst i.
    symmetry. apply find_id_NoDup; [exact Hnd'|].
    eapply Permutation_in; eassumption.
  - symmetry. apply find_id_None. intros Hin.
    apply (Permutation_in _ (Permutation_map id (Permutation_sym Hp))) in Hin.
    destruct (find_id_In i ns Hin) as (m & Hf' & _). congruence.
Qed.

Lemma find_first_match {A} (f : A -> bool) l m :
  find f l = Some m ->
  exists pre post, l = (pre ++ m :: post)%list /\ f m = true
                   /\ forall x, In x pre -> f x = false.
Proof.
  induction l as [|a l IH]; cbn [find]; intros Hf; [discriminate|].
  destruct (f a) eqn:E.
  - inversion Hf; subst. exists [], l. repeat split; [exact E | intros x []].
  - destruct (IH Hf) as (pre & post & -> & Hm & Hpre).
    exists (a :: pre), post. repeat split; [exact Hm|].
    intros x [<-|Hx]; [exact E | apply Hpre; exact Hx].
Qed.

(** X12: a click on a sidebar item selects the id of that note, returns to
    viewing mode and loads its title and content into the drafts; the
    collection is not touched. The main panel then displays the first note of
    the collection that carries this id (no note before it in the array
    does): the clicked note itself when the ids are pairwise distinct, and
    the empty state when no note carries it. *)
Theorem select_displays_note (n : Note) (s : AppState) (w : World) :
  let s' := fst (handleSelectNote n s w) in
  selectedNoteId s' = Some (id n) /\ mode s' = view
  /\ editTitle s' = title n /\ editContent s' = content n
  /\ notes s' = notes s /\ searchTerm s' = searchTerm s
  /\ sidebarOpen s' = sidebarOpen s
  /\ snd (handleSelectNote n s w) = w
  /\ (In n (notes s) ->
      exists m, MainContent s' = NoteDisplay m /\ id m = id n /\ In m (notes s))
  /\ (In n (notes s) -> NoDup (map id (notes s)) -> MainContent s' = NoteDisplay n)
  /\ (~ In (id n) (map id (notes s)) -> MainContent s' = EmptyState)
  /\ (In n (notes s) ->
      exists pre m post,
        notes s = (pre ++ m :: post)%list
        /\ id m = id n
        /\ (forall x, In x pre -> id x <> id n)
        /\ MainContent s' = NoteDisplay m)
  /\ (forall pre m post,
        notes s = (pre ++ m :: post)%list -> id m = id n ->
        (forall x, In x pre -> id x <> id n) ->
        MainContent s' = NoteDisplay m).
Proof.
  cbv zeta. unfold handleSelectNote, ret. cbn [fst snd].
  repeat (split; [reflexivity|]).
  unfold MainContent, selectedNote.
  cbn [mode selectedNoteId notes setEditContent setEditTitle setMode setSelectedNoteId].
  split; [|split; [|split; [|split]]].
  - intros Hin. destruct (find_id_In (id n) (notes s) (in_map id _ _ Hin))
      as (m & Hf & Hi & Hm).
    rewrite Hf. exists m. repeat split; assumption.
  - intros Hin Hnd. rewrite (find_id_NoDup _ _ Hnd Hin). reflexivity.
  - intros Hn. rewrite (find_id_None _ _ Hn). reflexivity.
  - intros Hin. destruct (find_id_In (id n) (notes s) (in_map id _ _ Hin))
      as (m & Hf & Hi & _).
    destruct (find_first_match _ _ _ Hf) as (pre & post & E & _ & Hpre).
    exists pre, m, post. rewrite Hf. repeat split; try assumption.
    intros x Hx. apply String.eqb_neq. apply Hpre. exact Hx.
  - intros pre m post E Hi Hpre. rewrite E.
    assert (Hf : find (fun n0 => String.eqb (id n0) (id n)) (pre ++ m :: post)%list
                 = Some m).
    { clear E. induction pre as [|a pre IH]; cbn [app find].
      - rewrite Hi, String.eqb_refl. reflexivity.
      - assert (Ea : String.eqb (id a) (id n) = false)
          by (apply String.eqb_neq, Hpre; left; reflexivity).
        rewrite Ea. apply IH. intros x Hx. apply Hpre. right. exact Hx. }
    rewrite Hf. reflexivity.
Qed.

Lemma select_displays_note_witness :
  MainContent (fst (handleSelectNote (mkNote "note2" "Features" "list" 2 2)
                                     edit_example (world_example 9)))
  = NoteDisplay (mkNote "note2" "Features" "list" 2 2).
Proof.
  destruct (select_displays_note (mkNote "note2" "Features" "list" 2 2)
              edit_example (world_example 9))
    as (_ & _ & _ & _ & _ & _ & _ & _ & _ & H & _).
  apply H.
  - right. left. reflexivity.
  - repeat constructor; cbn; intuition discriminate.
Defined.

(** With two notes of one id, a click on the second displays the first. *)
Lemma select_among_same_ids_shows_first :
  MainContent (fst (handleSelectNote (mkNote "note_5" "a" "" 5 5)
                      (fst (session double_create (world_example 5)))
                      (world_example 5)))
  = NoteDisplay (mkNote "note_5" "b" "" 5 5).
Proof. vm_compute. reflexivity. Qed.

Lemma Forall2_impl_In {A B} (R R' : A -> B -> Prop) l l' :
  Forall2 R l l' ->
  (forall a b, In a l -> R a b -> R' a b) ->
  Forall2 R' l l'.
Proof.
  induction 1 as [|a b l l' Hab _ IH]; intros Himp; constructor.
  - apply Himp; [left; reflexivity | exact Hab].
  - apply IH. intros a' b' Ha'. apply Himp. right. exact Ha'.
Qed.

Lemma handleEditNoteClick_eq s w :
  handleEditNoteClick s w =
    match selectedNote s with
    | None => (s, w)
    | Some sel => (mkApp (notes s) (selectedNoteId s) (sidebarOpen s) (searchTerm s)
                         edit (title sel) (content sel), w)
    end.
Proof. unfold handleEditNoteClick. destruct (selectedNote s); reflexivity. Qed.

(** X13: Edit does nothing when no note is selected. With the note [m]
    selected it opens the form on the title and content of [m] without
    touching the collection or the selection; a Save right after it, with a
    title that is not blank and pairwise distinct ids, takes one clock reading
    and changes nothing but the [updatedAt] of [m], and the page is back on
    the note. *)
Theorem edit_click_then_save (s : AppState) (w : World) :
  (selectedNote s = None -> handleEditNoteClick s w = (s, w))
  /\ (forall m, selectedNote s = Some m ->
        let s1 := fst (handleEditNoteClick s w) in
        snd (handleEditNoteClick s w) = w
        /\ MainContent s1 = NoteForm edit (title m) (content m)
        /\ notes s1 = notes s /\ selectedNoteId s1 = selectedNoteId s
        /\ (trim (title m) <> "" -> NoDup (map id (notes s)) ->
            notes (fst (handleSaveNote s1 w))
            = map (fun n => if String.eqb (id n) (id m)
                            then mkNote (id n) (title n) (content n) (createdAt n)
                                        (clock w (reads w))
                            else n) (notes s)
            /\ snd (handleSaveNote s1 w) = tick 1 w
            /\ selectedNoteId (fst (handleSaveNote s1 w)) = selectedNoteId s
            /\ mode (fst (handleSaveNote s1 w)) = view
            /\ MainContent (fst (handleSaveNote s1 w))
               = NoteDisplay (mkNote (id m) (title m) (content m) (createdAt m)
                                     (clock w (reads w))))).
Proof.
  split.
  - intros Hn. rewrite handleEditNoteClick_eq, Hn. reflexivity.
  - intros m Hs. cbv zeta. rewrite handleEditNoteClick_eq, Hs. cbn [fst snd].
    destruct (selectedNote_Some s m Hs) as [Hin Hsel].
    set (s1 := mkApp (notes s) (selectedNoteId s) (sidebarOpen s) (searchTerm s)
                     edit (title m) (content m)).
    assert (Hs1 : selectedNote s1 = Some m) by exact Hs.
    split; [reflexivity|]. split.
    { unfold MainContent. rewrite Hs1. reflexivity. }
    split; [reflexivity|]. split; [reflexivity|].
    intros Ht Hnd.
    rewrite (handleSaveNote_edit_eq s1 w m Ht eq_refl Hs1).
    cbn [fst snd notes selectedNoteId mode editTitle editContent s1].
    destruct (array_map_saveCallback (id m) (title m) (content m) (notes s) w)
      as [Hf Hw].
    assert (Ho : occurrences (id m) (notes s) = 1%nat).
    { apply occurrences_NoDup; [exact Hnd | apply in_map; exact Hin]. }
    rewrite Ho in *.
    assert (Hmap : fst (array_map (saveCallback (id m) (title m) (content m)) (notes s) w)
                   = map (fun n => if String.eqb (id n) (id m)
                                   then mkNote (id n) (title n) (content n) (createdAt n)
                                               (clock w (reads w))
                                   else n) (notes s)).
    { apply Forall2_eq_map. eapply Forall2_impl_In; [exact Hf|].
      intros a b Ha Hab. cbn beta in *.
      destruct (String.eqb (id a) (id m)) eqn:E; [|exact Hab].
      destruct Hab as (k & Hk & ->). replace k with (reads w) by lia.
      apply String.eqb_eq in E.
      rewrite (NoDup_ids_eq _ _ _ Hnd Ha Hin E). reflexivity. }
    split; [exact Hmap|]. split; [exact Hw|]. split; [symmetry; exact Hsel|].
    split; [reflexivity|].
    unfold MainContent, selectedNote. cbn [mode selectedNoteId notes].
    rewrite Hmap.
    assert (Hin' : In (mkNote (id m) (title m) (content m) (createdAt m)
                              (clock w (reads w)))
                      (map (fun n => if String.eqb (id n) (id m)
                                      then mkNote (id n) (title n) (content n)
                                                  (createdAt n) (clock w (reads w))
                                      else n) (notes s))).
    { apply in_map_iff. exists m. rewrite String.eqb_refl. split; [reflexivity | exact Hin]. }
    assert (Hnd' : NoDup (map id (map (fun n => if String.eqb (id n) (id m)
                                      then mkNote (id n) (title n) (content n)
                                                  (createdAt n) (clock w (reads w))
                                      else n) (notes s)))).
    { rewrite map_map.
      erewrite map_ext; [exact Hnd|].
      intros a. cbn beta. destruct (String.eqb (id a) (id m)); reflexivity. }
    pose proof (find_id_NoDup _ _ Hnd' Hin') as Hfind. cbn [id] in Hfind.
    rewrite Hfind. reflexivity.
Qed.

Lemma edit_click_then_save_witness :
  map updatedAt
      (notes (fst (handleSaveNote
                     (fst (handleEditNoteClick
                             (mkApp (seedNotes 1 1 1 1) (Some "note2") true "" view "" "")
                             (world_example 9)))
                     (world_example 9))))
  = [1; 9].
Proof.
  destruct (edit_click_then_save
              (mkApp (seedNotes 1 1 1 1) (Some "note2") true "" view "" "")
              (world_example 9)) as [_ H].
  destruct (H (mkNote "note2" "Features"
                 (String.concat (String (ascii_of_nat 10) "")
                    ["- Create, edit, delete notes"; "- Search instantly";
                     "- Beautiful, responsive UI"]) 1 1) eq_refl)
    as (_ & _ & _ & _ & Hsave).
  destruct Hsave as (Hnotes & _).
  - discriminate.
  - repeat constructor; cbn; intuition discriminate.
  - rewrite Hnotes. reflexivity.
Defined.

(** X14: Cancel after New Note leaves the page on the empty state with no
    selection, whatever note was displayed before the form was opened (the
    create click had already cleared the selection); Cancel after Edit, from
    viewing mode, shows again what was shown before. Neither touches the
    collection. *)
Theorem cancel_after_opening_a_form (s : AppState) (w : World) :
  let sc := fst (onCancel (fst (handleCreateNoteClick s w)) w) in
  let se := fst (onCancel (fst (handleEditNoteClick s w)) w) in
  MainContent sc = EmptyState
  /\ selectedNoteId sc = None /\ mode sc = view /\ notes sc = notes s
  /\ notes se = notes s /\ selectedNoteId se = selectedNoteId s /\ mode se = view
  /\ (mode s = view -> MainContent se = MainContent s).
Proof.
  cbv zeta. rewrite handleCreateNoteClick_eq, handleEditNoteClick_eq.
  unfold onCancel, ret. cbn [fst snd].
  split; [reflexivity|]. split; [reflexivity|]. split; [reflexivity|].
  split; [reflexivity|].
  destruct (selectedNote s) as [sel|] eqn:Es; cbn [fst].
  - split; [reflexivity|]. split; [reflexivity|]. split; [reflexivity|].
    intros Hv. unfold MainContent. rewrite Hv.
    replace (selectedNote _) with (selectedNote s) by reflexivity.
    reflexivity.
  - split; [reflexivity|]. split; [reflexivity|]. split; [reflexivity|].
    intros Hv. unfold MainContent. rewrite Hv.
    replace (selectedNote _) with (selectedNote s) by reflexivity.
    reflexivity.
Qed.

Lemma cancel_after_opening_a_form_witness :
  MainContent (fst (onCancel
                      (fst (handleEditNoteClick
                              (mkApp (seedNotes 1 1 1 1) (Some "note1") true "" view "" "")
                              (world_example 9)))
                      (world_example 9)))
  = MainContent (mkApp (seedNotes 1 1 1 1) (Some "note1") true "" view "" "").
Proof.
  destruct (cancel_after_opening_a_form
              (mkApp (seedNotes 1 1 1 1) (Some "note1") true "" view "" "")
              (world_example 9)) as (_ & _ & _ & _ & _ & _ & _ & H).
  apply H. reflexivity.
Defined.

(** X15: after a confirmed delete nothing is selected and the main panel is
    the empty state, also after the renders that follow and whatever notes
    remain: no other note is selected in place of the deleted one. *)
Theorem delete_leaves_empty_state (x : string) (s : AppState) (w : World) :
  answers w (List.length (confirms w)) = true ->
  MainContent (fst (handleDeleteNoteClick x s w)) = EmptyState
  /\ MainContent (fst (step (DeleteNoteClick x) s w)) = EmptyState
  /\ selectedNoteId (fst (step (DeleteNoteClick x) s w)) = None
  /\ mode (fst (step (DeleteNoteClick x) s w)) = view.
Proof.
  intros Ha.
  assert (Hempty : forall s', mode s' = view -> selectedNoteId s' = None ->
                              MainContent s' = EmptyState).
  { intros s' Hm Hs. unfold MainContent, selectedNote. rewrite Hm, Hs. reflexivity. }
  assert (Hh : mode (fst (handleDeleteNoteClick x s w)) = view
               /\ selectedNoteId (fst (handleDeleteNoteClick x s w)) = None).
  { rewrite handleDeleteNoteClick_eq, Ha. split; reflexivity. }
  destruct Hh as [Hm Hs].
  rewrite step_eq. cbn [handle].
  destruct (render_cycle_mode_selection (fst (handleDeleteNoteClick x s w))
              (snd (handleDeleteNoteClick x s w))) as (Hm' & Hs' & _).
  split; [apply Hempty; assumption|].
  split; [apply Hempty; congruence|]. split; congruence.
Qed.

Lemma delete_leaves_empty_state_witness :
  MainContent (fst (step (DeleteNoteClick "note1")
                      (mkApp (seedNotes 1 1 1 1) (Some "note1") true "" view "" "")
                      (world_example 9)))
  = EmptyState.
Proof.
  destruct (delete_leaves_empty_state "note1"
              (mkApp (seedNotes 1 1 1 1) (Some "note1") true "" view "" "")
              (world_example 9)) as (_ & H & _).
  - reflexivity.
  - exact H.
Defined.

Lemma filter_other_ids x ns :
  ~ In x (map id ns) -> filter (fun n => negb (String.eqb (id n) x)) ns = ns.
Proof.
  induction ns as [|n ns IH]; cbn [map filter]; intros Hn; [reflexivity|].
  destruct (String.eqb (id n) x) eqn:E.
  - apply String.eqb_eq in E. exfalso. apply Hn. left. exact E.
  - cbn [negb]. rewrite IH; [reflexivity|]. intros Hin. apply Hn. right. exact Hin.
Qed.

Lemma filter_shorter {A} (p : A -> bool) l x :
  In x l -> p x = false -> (List.length (filter p l) < List.length l)%nat.
Proof.
  induction l as [|a l IH]; intros Hin Hp; [destruct Hin|].
  cbn [filter]. destruct Hin as [<-|Hin].
  - rewrite Hp. cbn [List.length]. pose proof (filter_length_le p l). lia.
  - specialize (IH Hin Hp). destruct (p a); cbn [List.length]; lia.
Qed.

(** X16: creating a note and deleting it again. The delete takes out every
    note with the id of the new note: when that id was not in the collection
    the collection is the one before the create; when it was, the older notes
    of that id go with the new one. *)
Theorem delete_created_note (s : AppState) (w w' : World) :
  trim (editTitle s) <> "" -> mode s = create ->
  answers w' (List.length (confirms w')) = true ->
  let created := createdNote s w in
  let s2 := fst (handleDeleteNoteClick (id created) (fst (handleSaveNote s w)) w') in
  notes s2 = filter (fun n => negb (String.eqb (id n) (id created))) (notes s)
  /\ (~ In (id created) (map id (notes s)) -> notes s2 = notes s)
  /\ (In (id created) (map id (notes s)) ->
      (List.length (notes s2) < List.length (notes s))%nat).
Proof.
  intros Ht Hm Ha. cbv zeta.
  rewrite (handleSaveNote_create_eq s w Ht Hm), handleDeleteNoteClick_eq, Ha.
  cbn [fst notes filter]. rewrite String.eqb_refl. cbn [negb].
  split; [reflexivity|]. split.
  - apply filter_other_ids.
  - intros Hin. apply in_map_iff in Hin as (m & Hi & Hin).
    apply (filter_shorter _ _ m Hin). rewrite Hi, String.eqb_refl. reflexivity.
Qed.

Lemma delete_created_note_witness :
  notes (fst (handleDeleteNoteClick "note_5"
                (fst (handleSaveNote creating_example (world_example 5)))
                (world_example 5)))
  = notes creating_example.
Proof.
  destruct (delete_created_note creating_example (world_example 5) (world_example 5))
    as (_ & H & _).
  - discriminate.
  - reflexivity.
  - reflexivity.
  - apply H. cbn. intuition discriminate.
Defined.

(** ** The first render *)

Lemma array_sort_pair a b :
  array_sort sortByRecent [a; b] = if updatedAt a <? updatedAt b then [b; a] else [a; b].
Proof.
  cbn [array_sort sort_insert]. unfold sortByRecent.
  destruct (Z.ltb_spec 0 (updatedAt b - updatedAt a)),
           (Z.ltb_spec (updatedAt a) (updatedAt b)); try reflexivity; lia.
Qed.

(** X17: the first render reads the clock four times and seeds the two
    sample notes, nothing selected, viewing mode, no search term, the main
    panel on the empty state. The sidebar lists "note1" first unless the
    clock has moved on between the two [updatedAt] readings, in which case
    "note2", stamped later, comes first. *)
Theorem first_render (w : World) :
  let s := fst (mount w) in
  let seeds := seedNotes (clock w (reads w)) (clock w (1 + reads w))
                         (clock w (2 + reads w)) (clock w (3 + reads w)) in
  snd (mount w) = tick 4 w
  /\ notes s = (if clock w (1 + reads w) <? clock w (3 + reads w)
                then rev seeds else seeds)
  /\ sidebar_notes (render s) = notes s
  /\ selectedNoteId s = None /\ mode s = view /\ searchTerm s = ""
  /\ editTitle s = "" /\ editContent s = ""
  /\ MainContent s = EmptyState.
Proof.
  cbv zeta. rewrite mount_eq, render_cycle_eq.
  assert (E0 : useMemo_notes (initialState (innerWidth w)) = initialState (innerWidth w))
    by reflexivity.
  rewrite E0, (seedEffect_empty (initialState (innerWidth w)) w eq_refl).
  cbn [fst snd]. unfold useMemo_notes, initialState.
  cbn [searchTerm setNotes truthy negb notes selectedNoteId mode editTitle editContent].
  assert (Es : array_sort sortByRecent
                 (seedNotes (clock w (reads w)) (clock w (1 + reads w))
                            (clock w (2 + reads w)) (clock w (3 + reads w)))
               = if clock w (1 + reads w) <? clock w (3 + reads w)
                 then rev (seedNotes (clock w (reads w)) (clock w (1 + reads w))
                                     (clock w (2 + reads w)) (clock w (3 + reads w)))
                 else seedNotes (clock w (reads w)) (clock w (1 + reads w))
                                (clock w (2 + reads w)) (clock w (3 + reads w))).
  { unfold seedNotes. rewrite array_sort_pair. reflexivity. }
  split; [reflexivity|]. split; [exact Es|]. split.
  - cbn [render sidebar_notes notes searchTerm]. unfold filteredNotes.
    cbn [truthy negb]. apply array_sort_fixed, array_sort_sorted.
  - repeat split; reflexivity.
Qed.

(** ** What the other events leave alone *)

Lemma handle_layout_frame ev s w :
  ev <> SaveNote -> (forall x, ev <> DeleteNoteClick x) ->
  notes (fst (handle ev s w)) = notes s
  /\ reads (snd (handle ev s w)) = reads w
  /\ clock (snd (handle ev s w)) = clock w.
Proof.
  intros Hs Hd. destruct ev; cbn [handle]; try (repeat split; reflexivity).
  - rewrite handleCreateNoteClick_eq. repeat split; reflexivity.
  - rewrite handleEditNoteClick_eq. destruct (selectedNote s); repeat split; reflexivity.
  - exfalso. apply (Hd noteId). reflexivity.
  - exfalso. apply Hs. reflexivity.
Qed.

(** X18: only Save and Delete change the collection or read the clock in
    their handler. After any other event, renders included, a collection that
    was not empty holds the same notes as before (rearranged at most, by the
    sort in place) and no clock reading has been taken. *)
Theorem other_events_keep_the_collection (ev : Event) (s : AppState) (w : World) :
  ev <> SaveNote -> (forall x, ev <> DeleteNoteClick x) ->
  notes (fst (handle ev s w)) = notes s
  /\ reads (snd (handle ev s w)) = reads w
  /\ (notes s <> [] ->
      Permutation (notes (fst (step ev s w))) (notes s)
      /\ reads (snd (step ev s w)) = reads w
      /\ clock (snd (step ev s w)) = clock w).
Proof.
  intros Hs Hd. destruct (handle_layout_frame ev s w Hs Hd) as (Hn & Hr & Hc).
  split; [exact Hn|]. split; [exact Hr|].
  intros Hne. rewrite step_eq.
  destruct (render_cycle_notes_cases (fst (handle ev s w)) (snd (handle ev s w)))
    as [(_ & Hp & Hw) | (He & _)].
  - rewrite Hw, Hp, Hn. repeat split; assumption || reflexivity.
  - rewrite Hn in He. contradiction.
Qed.

Lemma other_events_keep_the_collection_witness :
  Permutation
    (notes (fst (step (SearchChange "zzz") creating_example (world_example 5))))
    (notes creating_example).
Proof.
  destruct (other_events_keep_the_collection (SearchChange "zzz") creating_example
              (world_example 5)) as (_ & _ & H).
  - discriminate.
  - discriminate.
  - apply H. discriminate.
Defined.

Lemma MainContent_ext s s' :
  mode s' = mode s -> selectedNote s' = selectedNote s ->
  editTitle s' = editTitle s -> editContent s' = editContent s ->
  MainContent s' = MainContent s.
Proof. intros Hm Hs Ht Hc. unfold MainContent. rewrite Hm, Hs, Ht, Hc. reflexivity. Qed.

Lemma handle_layout_state ev s w :
  layoutEvent ev ->
  notes (fst (handle ev s w)) = notes s
  /\ selectedNoteId (fst (handle ev s w)) = selectedNoteId s
  /\ mode (fst (handle ev s w)) = mode s
  /\ editTitle (fst (handle ev s w)) = editTitle s
  /\ editContent (fst (handle ev s w)) = editContent s.
Proof.
  destruct ev; cbn [layoutEvent]; intros H; try destruct H; cbn [handle];
    repeat split; reflexivity.
Qed.

(** X19: with a collection that is not empty and whose ids are pairwise
    distinct, typing in the search box, toggling the sidebar and resizing the
    window leave the main panel as it is: the displayed note stays displayed
    when the search hides it in the sidebar, and an open form keeps its
    drafts. *)
Theorem main_panel_ignores_layout_events (ev : Event) (s : AppState) (w : World) :
  layoutEvent ev -> notes s <> [] -> NoDup (map id (notes s)) ->
  MainContent (fst (step ev s w)) = MainContent s
  /\ selectedNoteId (fst (step ev s w)) = selectedNoteId s
  /\ mode (fst (step ev s w)) = mode s.
Proof.
  intros Hl Hne Hnd.
  destruct (handle_layout_state ev s w Hl) as (Hn & Hsel & Hm & Ht & Hc).
  rewrite step_eq.
  destruct (render_cycle_mode_selection (fst (handle ev s w)) (snd (handle ev s w)))
    as (Hm' & Hsel' & Ht' & Hc' & _).
  destruct (render_cycle_notes_cases (fst (handle ev s w)) (snd (handle ev s w)))
    as [(_ & Hp & _) | (He & _)]; [|rewrite Hn in He; contradiction].
  split; [|split; congruence].
  apply MainContent_ext; try congruence.
  unfold selectedNote. rewrite Hsel', Hsel.
  destruct (selectedNoteId s) as [i|]; [|reflexivity].
  symmetry. rewrite <- Hn. apply find_id_perm; [symmetry; exact Hp|].
  rewrite Hn. exact Hnd.
Qed.

Lemma main_panel_ignores_layout_events_witness :
  MainContent (fst (step (SearchChange "zzz")
                      (mkApp (seedNotes 1 1 1 1) (Some "note1") true "" view "" "")
                      (world_example 5)))
  = MainContent (mkApp (seedNotes 1 1 1 1) (Some "note1") true "" view "" "").
Proof.
  destruct (main_panel_ignores_layout_events (SearchChange "zzz")
              (mkApp (seedNotes 1 1 1 1) (Some "note1") true "" view "" "")
              (world_example 5)) as [H _].
  - exact I.
  - discriminate.
  - repeat constructor; cbn; intuition discriminate.
  - exact H.
Defined.

(** ** The list of the sidebar *)

Lemma itemKeys_Sidebar_list l sel : itemKeys (Sidebar_list l sel) = map id l.
Proof.
  unfold Sidebar_list, itemKeys. rewrite flat_map_app.
  assert (E : flat_map (fun it => match it with
                                  | SidebarNote k _ _ _ => [k]
                                  | SidebarNoteEmpty => []
                                  end)
                       (if (List.length l =? 0)%nat then [SidebarNoteEmpty] else []) = [])
    by (destruct (List.length l =? 0)%nat; reflexivity).
  rewrite E. clear E. cbn [app]. induction l as [|n l IH]; cbn; [reflexivity|].
  rewrite IH. reflexivity.
Qed.

Lemma selectedKeys_Sidebar_list l sel :
  selectedKeys (Sidebar_list l sel) = map id (filter (isSelectedItem sel) l).
Proof.
  unfold Sidebar_list, selectedKeys. rewrite flat_map_app.
  assert (E : flat_map (fun it => match it with
                                  | SidebarNote k true _ _ => [k]
                                  | _ => []
                                  end)
                       (if (List.length l =? 0)%nat then [SidebarNoteEmpty] else []) = [])
    by (destruct (List.length l =? 0)%nat; reflexivity).
  rewrite E. clear E. cbn [app].
  induction l as [|n l IH]; cbn [map flat_map filter]; [reflexivity|].
  rewrite IH. destruct (isSelectedItem sel n); reflexivity.
Qed.

Lemma filter_none_kept {A} (l : list A) : filter (fun _ => false) l = [].
Proof. induction l as [|a l IH]; cbn; [reflexivity | exact IH]. Qed.

Lemma filter_id_NoDup i l :
  NoDup (map id l) ->
  filter (fun n => String.eqb (id n) i) l
  = match find (fun n => String.eqb (id n) i) l with Some n => [n] | None => [] end.
Proof.
  induction l as [|a l IH]; cbn [map filter find]; intros Hnd; [reflexivity|].
  inversion Hnd as [|? ? Hni Hnd']; subst.
  destruct (String.eqb (id a) i) eqn:E; [|apply IH; exact Hnd'].
  apply String.eqb_eq in E. subst i. f_equal.
  rewrite (IH Hnd'), (find_id_None _ _ Hni). reflexivity.
Qed.

Lemma filteredNotes_NoDup ns q :
  NoDup (map id ns) -> NoDup (map id (filteredNotes ns q)).
Proof.
  intros Hnd. rewrite filteredNotes_eq.
  eapply Permutation_NoDup;
    [apply Permutation_map; symmetry; apply array_sort_perm|].
  apply NoDup_map_filter. exact Hnd.
Qed.

Lemma filteredNotes_In_iff n ns q :
  In n (filteredNotes ns q) <-> In n ns /\ matchesSearch q n = true.
Proof. rewrite filteredNotes_eq, array_sort_In, filter_In. tauto. Qed.

Lemma find_id_filteredNotes i ns q :
  NoDup (map id ns) ->
  find (fun n => String.eqb (id n) i) (filteredNotes ns q)
  = match find (fun n => String.eqb (id n) i) ns with
    | Some n => if matchesSearch q n then Some n else None
    | None => None
    end.
Proof.
  intros Hnd. destruct (find (fun n => String.eqb (id n) i) ns) as [n|] eqn:Hf.
  - apply find_some in Hf as [Hin He]. apply String.eqb_eq in He. subst i.
    destruct (matchesSearch q n) eqn:Hq.
    + apply find_id_NoDup; [apply filteredNotes_NoDup; exact Hnd|].
      apply filteredNotes_In_iff. split; assumption.
    + apply find_id_None. intros Hi. apply in_map_iff in Hi as (m & Hm & Hi).
      apply filteredNotes_In_iff in Hi as [Hi Hqm].
      rewrite (NoDup_ids_eq _ _ _ Hnd Hi Hin Hm) in Hqm. congruence.
  - apply find_id_None. intros Hi. apply in_map_iff in Hi as (m & Hm & Hi).
    apply filteredNotes_In_iff in Hi as [Hi _].
    pose proof (find_none _ _ Hf m Hi) as Hne. cbn beta in Hne.
    rewrite Hm, String.eqb_refl in Hne. discriminate.
Qed.

(** X20: the list of the sidebar is never without an item: it holds the
    "No notes found" line, alone, exactly when no note of the collection
    matches the search term, and otherwise one item per visible note, keyed
    by the id of the note. With pairwise distinct ids the keys are pairwise
    distinct, and the only item marked selected is the one of the selected
    note, present when that note matches the search term. *)
Theorem sidebar_list_items (s : AppState) :
  let items := sidebarItems s in
  (1 <= List.length items)%nat
  /\ (In SidebarNoteEmpty items <->
      forall n, In n (notes s) -> matchesSearch (searchTerm s) n = false)
  /\ (In SidebarNoteEmpty items -> items = [SidebarNoteEmpty])
  /\ itemKeys items = map id (filteredNotes (notes s) (searchTerm s))
  /\ (NoDup (map id (notes s)) ->
      NoDup (itemKeys items)
      /\ selectedKeys items
         = match selectedNote s with
           | Some n => if matchesSearch (searchTerm s) n then [id n] else []
           | None => []
           end).
Proof.
  cbv zeta. unfold sidebarItems.
  set (l := filteredNotes (notes s) (searchTerm s)).
  assert (Hnil : l = [] <->
                 forall n, In n (notes s) -> matchesSearch (searchTerm s) n = false).
  { split.
    - intros El n Hn. destruct (matchesSearch (searchTerm s) n) eqn:E; [|reflexivity].
      assert (Hin : In n l) by (apply filteredNotes_In_iff; split; assumption).
      rewrite El in Hin. destruct Hin.
    - intros Hall. destruct l as [|n l'] eqn:El; [reflexivity|].
      assert (Hin : In n l) by (rewrite El; left; reflexivity).
      apply filteredNotes_In_iff in Hin as [Hin Hq].
      rewrite (Hall n Hin) in Hq. discriminate. }
  assert (Hempty : In SidebarNoteEmpty (Sidebar_list l (selectedNoteId s)) <-> l = []).
  { unfold Sidebar_list. destruct l as [|n l']; cbn.
    - split; [reflexivity | intros _; left; reflexivity].
    - split; [|discriminate]. intros [H|H]; [discriminate|].
      apply in_map_iff in H as (m & Hm & _). discriminate. }
  split; [|split; [|split; [|split]]].
  - unfold Sidebar_list. destruct l; cbn; lia.
  - rewrite Hempty. exact Hnil.
  - intros H. apply Hempty in H. rewrite H. reflexivity.
  - apply itemKeys_Sidebar_list.
  - intros Hnd. rewrite itemKeys_Sidebar_list, selectedKeys_Sidebar_list.
    split; [apply filteredNotes_NoDup; exact Hnd|].
    unfold selectedNote, isSelectedItem.
    destruct (selectedNoteId s) as [i|].
    + rewrite (filter_id_NoDup i l (filteredNotes_NoDup _ _ Hnd)).
      subst l. rewrite (find_id_filteredNotes i _ _ Hnd).
      destruct (find (fun n => String.eqb (id n) i) (notes s)) as [n|];
        [|reflexivity].
      destruct (matchesSearch (searchTerm s) n); reflexivity.
    + rewrite filter_none_kept. reflexivity.
Qed.

Lemma sidebar_list_items_witness :
  selectedKeys (sidebarItems
                  (mkApp (seedNotes 1 1 1 1) (Some "note2") true "feat" view "" ""))
  = ["note2"].
Proof.
  destruct (sidebar_list_items
              (mkApp (seedNotes 1 1 1 1) (Some "note2") true "feat" view "" ""))
    as (_ & _ & _ & _ & H).
  destruct H as [_ H].
  - repeat constructor; cbn; intuition discriminate.
  - rewrite H. reflexivity.
Defined.

(** ** The page after a create *)

(** X21: a successful save in creating mode takes three clock readings,
    stores the title as typed (the trimmed form is only tested), selects the
    new note and displays it, whether or not the search term lets it into the
    sidebar. With pairwise distinct ids and a new id the renders that follow
    keep it displayed. *)
Theorem create_displays_new_note (s : AppState) (w : World) :
  trim (editTitle s) <> "" -> mode s = create ->
  let n := createdNote s w in
  title n = editTitle s /\ content n = editContent s
  /\ snd (handleSaveNote s w) = tick 3 w
  /\ selectedNoteId (fst (handleSaveNote s w)) = Some (id n)
  /\ MainContent (fst (handleSaveNote s w)) = NoteDisplay n
  /\ (NoDup (map id (notes s)) -> ~ In (id n) (map id (notes s)) ->
      MainContent (fst (step SaveNote s w)) = NoteDisplay n
      /\ In n (notes (fst (step SaveNote s w)))
      /\ NoDup (map id (notes (fst (step SaveNote s w))))).
Proof.
  intros Ht Hm. cbv zeta.
  split; [reflexivity|]. split; [reflexivity|].
  rewrite step_eq. cbn [handle]. rewrite (handleSaveNote_create_eq s w Ht Hm).
  cbn [fst snd]. split; [reflexivity|]. split; [reflexivity|].
  set (s1 := mkApp (createdNote s w :: notes s) (Some (id (createdNote s w)))
                   (sidebarOpen s) (searchTerm s) view (editTitle s) (editContent s)).
  assert (Hsel1 : selectedNote s1 = Some (createdNote s w)).
  { unfold selectedNote, s1. cbn [selectedNoteId notes find].
    rewrite String.eqb_refl. reflexivity. }
  assert (Hmain : forall s', mode s' = view -> selectedNote s' = Some (createdNote s w) ->
                             MainContent s' = NoteDisplay (createdNote s w)).
  { intros s' Hv Hs'. unfold MainContent. rewrite Hv, Hs'. reflexivity. }
  split; [apply Hmain; [reflexivity | exact Hsel1]|].
  intros Hnd Hfresh.
  assert (Hnd1 : NoDup (map id (notes s1))).
  { unfold s1. cbn [notes map]. constructor; assumption. }
  destruct (render_cycle_mode_selection s1 (tick 3 w)) as (Hm' & Hsel' & _).
  destruct (render_cycle_notes_cases s1 (tick 3 w)) as [(_ & Hp & _) | (He & _)];
    [|discriminate He].
  split; [|split].
  - apply Hmain; [rewrite Hm'; reflexivity|].
    unfold selectedNote. rewrite Hsel'. cbn [selectedNoteId s1].
    rewrite <- (find_id_perm _ _ _ (Permutation_sym Hp) Hnd1).
    exact Hsel1.
  - eapply Permutation_in; [symmetry; exact Hp | left; reflexivity].
  - eapply Permutation_NoDup; [apply Permutation_map; symmetry; exact Hp | exact Hnd1].
Qed.

Lemma create_displays_new_note_witness :
  MainContent (fst (step SaveNote searching_example (world_example 5)))
  = NoteDisplay (mkNote "note_5" "Banana Bread Recipe" "" 5 5).
Proof.
  destruct (create_displays_new_note searching_example (world_example 5))
    as (_ & _ & _ & _ & _ & H).
  - discriminate.
  - reflexivity.
  - destruct H as [H _].
    + repeat constructor; cbn; intuition discriminate.
    + cbn. intuition discriminate.
    + exact H.
Defined.
